(** * The bootstrap orchestrator: [runServer] of go/weed/server.go

    [runServer] starts, inside one process, a master server, the raft
    (consensus) server attached to it and a volume server. It has two parts:

    - a sequential prefix (lines 61-97) that normalises the flags and checks
      the configuration, leaving the process through [glog.Fatalf] on a
      configuration error;
    - a concurrent part (lines 99-156): the main goroutine, the goroutine of
      the master server and, spawned by the latter, the goroutine of the raft
      server, synchronised by two [sync.WaitGroup]s and two
      [time.Sleep(100 * time.Millisecond)].

    The prefix is embedded as a function in a small state-and-exit monad, the
    concurrent part as a step function on an explicit state, one step per
    source statement, run under an arbitrary schedule. Calls that leave the
    file (constructors of the three servers, listeners, [http.Serve], the
    folder test) are recorded as events with their actual arguments; what the
    operating system answers is read from an environment. The constructors
    are taken to return; logging other than [glog.Fatalf] is left out.

    Time is not modelled: [time.Sleep] is a step like any other, and the
    scheduler may let any goroutine that is not blocked take the next step,
    which is all the Go memory model promises. *)

From Stdlib Require Import ZArith String Ascii List Bool Lia DecimalString.
Import ListNotations.
Local Open Scope string_scope.
Local Open Scope Z_scope.

(** ** The library functions [runServer] calls on strings and integers *)

Module GoLib.

(** [strings.Split(s, sep)] for a non-empty [sep]: the pieces of [s] between
    the occurrences of [sep], found from left to right without overlap;
    a string without [sep] is returned as its only piece, so that
    [Split("", ",")] is [[""]]. [skip] counts the bytes of a separator just
    found that are still to be passed over, [cur] is the piece being read. *)
Fixpoint split_from (sep : string) (skip : nat) (cur : string) (s : string)
  : list string :=
  match s with
  | EmptyString => [cur]
  | String c s' =>
      match skip with
      | S k => split_from sep k cur s'
      | O =>
          if String.prefix sep s
          then cur :: split_from sep (Nat.pred (String.length sep)) "" s'
          else split_from sep 0 (cur ++ String c "") s'
      end
  end.

(** With an empty separator Go explodes the string into its characters
    (bytes here: the flags are ASCII). *)
Definition strings_Split (s sep : string) : list string :=
  match sep with
  | EmptyString => map (fun c => String c "") (list_ascii_of_string s)
  | _ => split_from sep 0 "" s
  end.

(** The size of Go's [int] on the platforms the server is built for. *)
Definition intSize : Z := 64.

Definition digit (c : ascii) : option Z :=
  let n := Z.of_nat (nat_of_ascii c) in
  if (48 <=? n) && (n <=? 57) then Some (n - 48) else None.

Fixpoint parseDigits (acc : Z) (s : string) : option Z :=
  match s with
  | EmptyString => Some acc
  | String c s' =>
      match digit c with
      | Some d => parseDigits (10 * acc + d) s'
      | None => None
      end
  end.

(** [strconv.Atoi(s)], that is [ParseInt(s, 10, 0)]: an optional sign, then
    at least one decimal digit and nothing else, the value within the range
    of [int]. [None] stands for a non-nil error. *)
Definition strconv_Atoi (s : string) : option Z :=
  match s with
  | EmptyString => None
  | String c rest =>
      let '(neg, body) :=
        if Ascii.eqb c "+" then (false, rest)
        else if Ascii.eqb c "-" then (true, rest)
        else (false, s) in
      match body with
      | EmptyString => None
      | _ =>
          match parseDigits 0 body with
          | None => None
          | Some u =>
              if neg
              then (if u <=? 2 ^ (intSize - 1) then Some (- u) else None)
              else (if u <? 2 ^ (intSize - 1) then Some u else None)
          end
      end
  end.

(** [strconv.Itoa(i)]: the decimal representation. *)
Definition strconv_Itoa (i : Z) : string :=
  NilZero.string_of_int (Z.to_int i).

(** [time.Duration(n) * time.Second]: nanoseconds in an [int64]. *)
Definition wrap64 (z : Z) : Z :=
  (z + 2 ^ 63) mod 2 ^ 64 - 2 ^ 63.

Definition seconds (n : Z) : Z := wrap64 (wrap64 n * 1000000000).

Definition milliseconds (n : Z) : Z := wrap64 (wrap64 n * 1000000).

End GoLib.

Import GoLib.

(** ** Package-level variables (lines 38-58)

    The flag variables are pointers to package-level cells; [runServer]
    overwrites four of them. [serverWhiteList] is a package-level slice,
    [nil] until line 96 assigns it. *)

Record Globals : Type := {
  serverIp : string;
  serverMaxCpu : Z;
  serverTimeout : Z;
  serverDataCenter : string;
  serverRack : string;
  serverWhiteListOption : string;
  serverPeers : string;
  masterPort : Z;
  masterMetaFolder : string;
  masterVolumeSizeLimitMB : Z;
  masterConfFile : string;
  masterDefaultReplicaPlacement : string;
  volumePort : Z;
  volumePublicUrl : string;
  volumeDataFolders : string;
  volumeMaxDataVolumeCounts : string;
  volumePulse : Z;
  serverWhiteList : list string
}.

(** The values the flags have when the command line sets none of them;
    [tempDir] is what [os.TempDir()] returns. *)
Definition defaultFlags (tempDir : string) : Globals := {|
  serverIp := "localhost";
  serverMaxCpu := 0;
  serverTimeout := 10;
  serverDataCenter := "";
  serverRack := "";
  serverWhiteListOption := "";
  serverPeers := "";
  masterPort := 9333;
  masterMetaFolder := "";
  masterVolumeSizeLimitMB := 30 * 1000;
  masterConfFile := "/etc/weedfs/weedfs.conf";
  masterDefaultReplicaPlacement := "000";
  volumePort := 8080;
  volumePublicUrl := "";
  volumeDataFolders := tempDir;
  volumeMaxDataVolumeCounts := "7";
  volumePulse := 5;
  serverWhiteList := []
|}.

Definition set_serverMaxCpu (v : Z) (g : Globals) : Globals := {|
  serverIp := serverIp g; serverMaxCpu := v;
  serverTimeout := serverTimeout g; serverDataCenter := serverDataCenter g;
  serverRack := serverRack g;
  serverWhiteListOption := serverWhiteListOption g;
  serverPeers := serverPeers g; masterPort := masterPort g;
  masterMetaFolder := masterMetaFolder g;
  masterVolumeSizeLimitMB := masterVolumeSizeLimitMB g;
  masterConfFile := masterConfFile g;
  masterDefaultReplicaPlacement := masterDefaultReplicaPlacement g;
  volumePort := volumePort g; volumePublicUrl := volumePublicUrl g;
  volumeDataFolders := volumeDataFolders g;
  volumeMaxDataVolumeCounts := volumeMaxDataVolumeCounts g;
  volumePulse := volumePulse g; serverWhiteList := serverWhiteList g |}.

Definition set_masterMetaFolder (v : string) (g : Globals) : Globals := {|
  serverIp := serverIp g; serverMaxCpu := serverMaxCpu g;
  serverTimeout := serverTimeout g; serverDataCenter := serverDataCenter g;
  serverRack := serverRack g;
  serverWhiteListOption := serverWhiteListOption g;
  serverPeers := serverPeers g; masterPort := masterPort g;
  masterMetaFolder := v;
  masterVolumeSizeLimitMB := masterVolumeSizeLimitMB g;
  masterConfFile := masterConfFile g;
  masterDefaultReplicaPlacement := masterDefaultReplicaPlacement g;
  volumePort := volumePort g; volumePublicUrl := volumePublicUrl g;
  volumeDataFolders := volumeDataFolders g;
  volumeMaxDataVolumeCounts := volumeMaxDataVolumeCounts g;
  volumePulse := volumePulse g; serverWhiteList := serverWhiteList g |}.

Definition set_volumePublicUrl (v : string) (g : Globals) : Globals := {|
  serverIp := serverIp g; serverMaxCpu := serverMaxCpu g;
  serverTimeout := serverTimeout g; serverDataCenter := serverDataCenter g;
  serverRack := serverRack g;
  serverWhiteListOption := serverWhiteListOption g;
  serverPeers := serverPeers g; masterPort := masterPort g;
  masterMetaFolder := masterMetaFolder g;
  masterVolumeSizeLimitMB := masterVolumeSizeLimitMB g;
  masterConfFile := masterConfFile g;
  masterDefaultReplicaPlacement := masterDefaultReplicaPlacement g;
  volumePort := volumePort g; volumePublicUrl := v;
  volumeDataFolders := volumeDataFolders g;
  volumeMaxDataVolumeCounts := volumeMaxDataVolumeCounts g;
  volumePulse := volumePulse g; serverWhiteList := serverWhiteList g |}.

Definition set_serverWhiteList (v : list string) (g : Globals) : Globals := {|
  serverIp := serverIp g; serverMaxCpu := serverMaxCpu g;
  serverTimeout := serverTimeout g; serverDataCenter := serverDataCenter g;
  serverRack := serverRack g;
  serverWhiteListOption := serverWhiteListOption g;
  serverPeers := serverPeers g; masterPort := masterPort g;
  masterMetaFolder := masterMetaFolder g;
  masterVolumeSizeLimitMB := masterVolumeSizeLimitMB g;
  masterConfFile := masterConfFile g;
  masterDefaultReplicaPlacement := masterDefaultReplicaPlacement g;
  volumePort := volumePort g; volumePublicUrl := volumePublicUrl g;
  volumeDataFolders := volumeDataFolders g;
  volumeMaxDataVolumeCounts := volumeMaxDataVolumeCounts g;
  volumePulse := volumePulse g; serverWhiteList := v |}.

(** ** What the process sees of its surroundings

    [VERSION] and [garbageThreshold] are package-level values declared in
    other files of package main; the rest is what the runtime and the
    operating system answer. *)

Record Env : Type := {
  VERSION : string;
  garbageThreshold : string;
  (** [runtime.NumCPU()] *)
  NumCPU : Z;
  (** [util.TestFolderWritable(folder)] returns a nil error *)
  FolderWritable : string -> bool;
  (** [util.NewListener(addr, _)] returns a nil error *)
  ListenOk : string -> bool;
  (** [http.Serve] on the listener of [addr] comes back (always with an
      error); otherwise it serves for ever *)
  ServeReturns : string -> bool
}.

(** ** Observable events *)

(** The goroutines: the one running [runServer], the one of line 105 and,
    inside it, the one of line 120. *)
Inductive tid : Type := Main | Master | Raft.

Inductive WaitGroup : Type := raftWaitForMaster | volumeWait.

(** The two request multiplexers, named by the statement that allocates
    them (each runs at most once); [nilRouter] is the value of a variable
    that was not assigned. *)
Inductive Router : Type :=
| nilRouter
| MasterRouter   (* mux.NewRouter(), line 106 *)
| VolumeMux.     (* http.NewServeMux(), line 140 *)

(** Arguments of [weed_server.NewMasterServer], in the order of the call. *)
Record MasterServerArgs : Type := {
  ms_r : Router;
  ms_version : string;
  ms_port : Z;
  ms_metaFolder : string;
  ms_volumeSizeLimitMB : Z;
  ms_pulseSeconds : Z;
  ms_confFile : string;
  ms_defaultReplicaPlacement : string;
  ms_garbageThreshold : string;
  ms_whiteList : list string
}.

(** [ms.Topo]: the topology of the master server built from these
    arguments. *)
Inductive Topo : Type := TopoOf (ms : MasterServerArgs).

(** Arguments of [weed_server.NewRaftServer]. *)
Record RaftServerArgs : Type := {
  rs_r : Router;
  rs_version : string;
  rs_peers : list string;
  rs_httpAddr : string;
  rs_dataDir : string;
  rs_topo : Topo;
  rs_pulseSeconds : Z
}.

(** Arguments of [weed_server.NewVolumeServer]. *)
Record VolumeServerArgs : Type := {
  vs_r : Router;
  vs_version : string;
  vs_ip : string;
  vs_port : Z;
  vs_publicUrl : string;
  vs_folders : list string;
  vs_maxCounts : list Z;
  vs_masterNode : string;
  vs_pulseSeconds : Z;
  vs_dataCenter : string;
  vs_rack : string;
  vs_whiteList : list string
}.

(** Why the process ended. The first six are the [glog.Fatalf] calls of
    lines 70, 80, 84, 88, 117/151 and 134/154. *)
Inductive Fatal : Type :=
| MetaFolderNotWritable (folder : string)
| MaxNotValidNumber (maxString : string)
| DirMaxMismatch (nfolders nmax : nat)
| DataFolderNotWritable (folder : string)
| ListenFailed (addr : string)
| ServeFailed (addr : string).

Inductive Event : Type :=
| EGOMAXPROCS (n : Z)
| ETestFolderWritable (folder : string) (ok : bool)
| EFatalf (why : Fatal)
| EPanic
| EAdd (wg : WaitGroup) (delta : Z)
| EGo (child : tid)
| EDone (wg : WaitGroup)
| EWait (wg : WaitGroup)              (* Wait has returned *)
| ESleep (nanoseconds : Z)
| ENewRouter (r : Router)
| ENewMasterServer (a : MasterServerArgs)
| ENewListener (addr : string) (timeout : Z) (ok : bool)
| ENewRaftServer (a : RaftServerArgs)
| ESetRaftServer (ms : MasterServerArgs) (raftServer : option RaftServerArgs)
| EServe (addr : string) (r : Router)
| ENewVolumeServer (a : VolumeServerArgs).

(** ** The sequential prefix of [runServer] (lines 61-97)

    A computation reads and writes the package-level variables, records
    events, and either goes on with a value or leaves the process
    ([glog.Fatalf] logs and calls [os.Exit]). *)

Module Setup.

Record World : Type := {
  globals : Globals;
  events : list Event       (* oldest first *)
}.

Inductive Res (A : Type) : Type :=
| Continue (a : A) (w : World)
| Exit (w : World).
Arguments Continue {A} a w.
Arguments Exit {A} w.

Definition M (A : Type) : Type := World -> Res A.

Definition ret {A} (a : A) : M A := fun w => Continue a w.

Definition bind {A B} (c : M A) (k : A -> M B) : M B :=
  fun w =>
    match c w with
    | Continue a w' => k a w'
    | Exit w' => Exit w'
    end.

Declare Scope go_scope.
Delimit Scope go_scope with go.
Notation "x <- c ;; k" := (bind c (fun x => k))
  (at level 61, c at next level, right associativity) : go_scope.
Notation "c ;; k" := (bind c (fun _ => k))
  (at level 61, right associativity) : go_scope.
Local Open Scope go_scope.

Definition load : M Globals := fun w => Continue (globals w) w.

Definition store (f : Globals -> Globals) : M unit :=
  fun w => Continue tt {| globals := f (globals w); events := events w |}.

Definition emit (e : Event) : M unit :=
  fun w => Continue tt {| globals := globals w; events := events w ++ [e] |}.

Definition glog_Fatalf {A} (why : Fatal) : M A :=
  fun w => Exit {| globals := globals w; events := events w ++ [EFatalf why] |}.

Definition when (b : bool) (c : M unit) : M unit :=
  if b then c else ret tt.

Section WithEnv.

Variable env : Env.

(** [util.TestFolderWritable(folder)]; [true] for a nil error. *)
Definition util_TestFolderWritable (folder : string) : M bool :=
  let ok := FolderWritable env folder in
  emit (ETestFolderWritable folder ok) ;; ret ok.

(** Lines 75-82: the loop over [maxCountStrings], [maxCounts] being the
    slice appended to. *)
Fixpoint parseMaxCounts (maxCountStrings : list string) (maxCounts : list Z)
  : M (list Z) :=
  match maxCountStrings with
  | [] => ret maxCounts
  | maxString :: rest =>
      match strconv_Atoi maxString with
      | Some max => parseMaxCounts rest (maxCounts ++ [max])
      | None => glog_Fatalf (MaxNotValidNumber maxString)
      end
  end.

(** Lines 86-90: the loop over [folders]. *)
Fixpoint checkDataFolders (folders : list string) : M unit :=
  match folders with
  | [] => ret tt
  | folder :: rest =>
      ok <- util_TestFolderWritable folder ;;
      if ok then checkDataFolders rest
      else glog_Fatalf (DataFolderNotWritable folder)
  end.

(** Lines 61-97. The result is the pair of the local variables [folders]
    and [maxCounts], which the concurrent part goes on with. *)
Definition setup : M (list string * list Z) :=
  (* 61-64 *)
  g <- load ;;
  when (serverMaxCpu g <? 1) (store (set_serverMaxCpu (NumCPU env))) ;;
  g <- load ;;
  emit (EGOMAXPROCS (serverMaxCpu g)) ;;
  (* 66-71 *)
  when (masterMetaFolder g =? "")%string
       (store (set_masterMetaFolder (volumeDataFolders g))) ;;
  g <- load ;;
  ok <- util_TestFolderWritable (masterMetaFolder g) ;;
  when (negb ok) (glog_Fatalf (MetaFolderNotWritable (masterMetaFolder g))) ;;
  (* 73-85 *)
  let folders := strings_Split (volumeDataFolders g) "," in
  let maxCountStrings := strings_Split (volumeMaxDataVolumeCounts g) "," in
  maxCounts <- parseMaxCounts maxCountStrings [] ;;
  when (negb (Nat.eqb (List.length folders) (List.length maxCounts)))
       (glog_Fatalf (DirMaxMismatch (List.length folders)
                                    (List.length maxCounts))) ;;
  (* 86-90 *)
  checkDataFolders folders ;;
  (* 92-97 *)
  when (volumePublicUrl g =? "")%string
       (store (set_volumePublicUrl
                 (serverIp g ++ ":" ++ strconv_Itoa (volumePort g)))) ;;
  when (negb (serverWhiteListOption g =? "")%string)
       (store (set_serverWhiteList
                 (strings_Split (serverWhiteListOption g) ","))) ;;
  ret (folders, maxCounts).

End WithEnv.

End Setup.

(** ** The concurrent part of [runServer] (lines 99-156) *)

(** Program points of the main goroutine: the statement about to run. *)
Inductive MainPC : Type :=
| M_add_raft          (* 102  raftWaitForMaster.Add(1) *)
| M_add_volume        (* 103  volumeWait.Add(1) *)
| M_go                (* 105  go func() { ... }() *)
| M_wait              (* 138  volumeWait.Wait() *)
| M_sleep             (* 139  time.Sleep(100 * time.Millisecond) *)
| M_newServeMux       (* 140  r := http.NewServeMux() *)
| M_newVolumeServer   (* 141  weed_server.NewVolumeServer(...) *)
| M_newListener       (* 146  util.NewListener(...), Fatalf on an error *)
| M_serve             (* 153  http.Serve(volumeListener, r) is called *)
| M_serving.          (* 153  inside http.Serve; Fatalf if it comes back *)

(** Program points of the goroutine of line 105. *)
Inductive MasterPC : Type :=
| G_idle              (* not started *)
| G_newRouter         (* 106  r := mux.NewRouter() *)
| G_newMasterServer   (* 107  ms := weed_server.NewMasterServer(...) *)
| G_newListener       (* 112  util.NewListener(...), Fatalf on an error *)
| G_go                (* 120  go func() { ... }() *)
| G_done              (* 132  raftWaitForMaster.Done() *)
| G_serve             (* 133  http.Serve(masterListener, r) is called *)
| G_serving.          (* 133  inside http.Serve; Fatalf if it comes back *)

(** Program points of the goroutine of line 120. *)
Inductive RaftPC : Type :=
| R_idle              (* not started *)
| R_wait              (* 121  raftWaitForMaster.Wait() *)
| R_sleep             (* 122  time.Sleep(100 * time.Millisecond) *)
| R_peers             (* 123-126  var peers, set when -peers is not empty *)
| R_newRaftServer     (* 127  raftServer := weed_server.NewRaftServer(...) *)
| R_setRaftServer     (* 128  ms.SetRaftServer(raftServer) *)
| R_done              (* 129  volumeWait.Done() *)
| R_end.              (* the function has returned *)

(** The master server object: what it was built from and its raft server
    field, which [SetRaftServer] assigns. *)
Record MasterServer : Type := {
  ms_args : MasterServerArgs;
  ms_raftServer : option RaftServerArgs
}.

(** What the prefix leaves behind and the concurrent part only reads: the
    package-level variables and the locals [folders] and [maxCounts]. *)
Record Frame : Type := {
  fr_globals : Globals;
  fr_folders : list string;
  fr_maxCounts : list Z
}.

Record State : Type := {
  st_frame : Frame;
  (* the two wait groups: their counters *)
  st_raftWaitForMaster : Z;
  st_volumeWait : Z;
  (* locals of the goroutine of line 105, shared with the one of line 120 *)
  st_r : Router;
  st_ms : option MasterServer;
  (* locals of the goroutine of line 120 *)
  st_peers : list string;
  st_raftServer : option RaftServerArgs;
  (* the [r] of line 140 *)
  st_volume_r : Router;
  st_pcMain : MainPC;
  st_pcMaster : MasterPC;
  st_pcRaft : RaftPC;
  (* the goroutine that ended the process, if one did *)
  st_exited : option tid;
  st_trace : list (tid * Event)     (* oldest first *)
}.

Definition with_raftWaitForMaster (v : Z) (s : State) : State :=
  {| st_frame := st_frame s; st_raftWaitForMaster := v;
     st_volumeWait := st_volumeWait s; st_r := st_r s; st_ms := st_ms s;
     st_peers := st_peers s; st_raftServer := st_raftServer s;
     st_volume_r := st_volume_r s; st_pcMain := st_pcMain s;
     st_pcMaster := st_pcMaster s; st_pcRaft := st_pcRaft s;
     st_exited := st_exited s; st_trace := st_trace s |}.

Definition with_volumeWait (v : Z) (s : State) : State :=
  {| st_frame := st_frame s;
     st_raftWaitForMaster := st_raftWaitForMaster s;
     st_volumeWait := v; st_r := st_r s; st_ms := st_ms s;
     st_peers := st_peers s; st_raftServer := st_raftServer s;
     st_volume_r := st_volume_r s; st_pcMain := st_pcMain s;
     st_pcMaster := st_pcMaster s; st_pcRaft := st_pcRaft s;
     st_exited := st_exited s; st_trace := st_trace s |}.

Definition with_r (v : Router) (s : State) : State :=
  {| st_frame := st_frame s;
     st_raftWaitForMaster := st_raftWaitForMaster s;
     st_volumeWait := st_volumeWait s; st_r := v; st_ms := st_ms s;
     st_peers := st_peers s; st_raftServer := st_raftServer s;
     st_volume_r := st_volume_r s; st_pcMain := st_pcMain s;
     st_pcMaster := st_pcMaster s; st_pcRaft := st_pcRaft s;
     st_exited := st_exited s; st_trace := st_trace s |}.

Definition with_ms (v : option MasterServer) (s : State) : State :=
  {| st_frame := st_frame s;
     st_raftWaitForMaster := st_raftWaitForMaster s;
     st_volumeWait := st_volumeWait s; st_r := st_r s; st_ms := v;
     st_peers := st_peers s; st_raftServer := st_raftServer s;
     st_volume_r := st_volume_r s; st_pcMain := st_pcMain s;
     st_pcMaster := st_pcMaster s; st_pcRaft := st_pcRaft s;
     st_exited := st_exited s; st_trace := st_trace s |}.

Definition with_peers (v : list string) (s : State) : State :=
  {| st_frame := st_frame s;
     st_raftWaitForMaster := st_raftWaitForMaster s;
     st_volumeWait := st_volumeWait s; st_r := st_r s; st_ms := st_ms s;
     st_peers := v; st_raftServer := st_raftServer s;
     st_volume_r := st_volume_r s; st_pcMain := st_pcMain s;
     st_pcMaster := st_pcMaster s; st_pcRaft := st_pcRaft s;
     st_exited := st_exited s; st_trace := st_trace s |}.

Definition with_raftServer (v : option RaftServerArgs) (s : State) : State :=
  {| st_frame := st_frame s;
     st_raftWaitForMaster := st_raftWaitForMaster s;
     st_volumeWait := st_volumeWait s; st_r := st_r s; st_ms := st_ms s;
     st_peers := st_peers s; st_raftServer := v;
     st_volume_r := st_volume_r s; st_pcMain := st_pcMain s;
     st_pcMaster := st_pcMaster s; st_pcRaft := st_pcRaft s;
     st_exited := st_exited s; st_trace := st_trace s |}.

Definition with_volume_r (v : Router) (s : State) : State :=
  {| st_frame := st_frame s;
     st_raftWaitForMaster := st_raftWaitForMaster s;
     st_volumeWait := st_volumeWait s; st_r := st_r s; st_ms := st_ms s;
     st_peers := st_peers s; st_raftServer := st_raftServer s;
     st_volume_r := v; st_pcMain := st_pcMain s;
     st_pcMaster := st_pcMaster s; st_pcRaft := st_pcRaft s;
     st_exited := st_exited s; st_trace := st_trace s |}.

Definition with_pcMain (v : MainPC) (s : State) : State :=
  {| st_frame := st_frame s;
     st_raftWaitForMaster := st_raftWaitForMaster s;
     st_volumeWait := st_volumeWait s; st_r := st_r s; st_ms := st_ms s;
     st_peers := st_peers s; st_raftServer := st_raftServer s;
     st_volume_r := st_volume_r s; st_pcMain := v;
     st_pcMaster := st_pcMaster s; st_pcRaft := st_pcRaft s;
     st_exited := st_exited s; st_trace := st_trace s |}.

Definition with_pcMaster (v : MasterPC) (s : State) : State :=
  {| st_frame := st_frame s;
     st_raftWaitForMaster := st_raftWaitForMaster s;
     st_volumeWait := st_volumeWait s; st_r := st_r s; st_ms := st_ms s;
     st_peers := st_peers s; st_raftServer := st_raftServer s;
     st_volume_r := st_volume_r s; st_pcMain := st_pcMain s;
     st_pcMaster := v; st_pcRaft := st_pcRaft s;
     st_exited := st_exited s; st_trace := st_trace s |}.

Definition with_pcRaft (v : RaftPC) (s : State) : State :=
  {| st_frame := st_frame s;
     st_raftWaitForMaster := st_raftWaitForMaster s;
     st_volumeWait := st_volumeWait s; st_r := st_r s; st_ms := st_ms s;
     st_peers := st_peers s; st_raftServer := st_raftServer s;
     st_volume_r := st_volume_r s; st_pcMain := st_pcMain s;
     st_pcMaster := st_pcMaster s; st_pcRaft := v;
     st_exited := st_exited s; st_trace := st_trace s |}.

Definition with_exited (v : option tid) (s : State) : State :=
  {| st_frame := st_frame s;
     st_raftWaitForMaster := st_raftWaitForMaster s;
     st_volumeWait := st_volumeWait s; st_r := st_r s; st_ms := st_ms s;
     st_peers := st_peers s; st_raftServer := st_raftServer s;
     st_volume_r := st_volume_r s; st_pcMain := st_pcMain s;
     st_pcMaster := st_pcMaster s; st_pcRaft := st_pcRaft s;
     st_exited := v; st_trace := st_trace s |}.

Definition with_trace (v : list (tid * Event)) (s : State) : State :=
  {| st_frame := st_frame s;
     st_raftWaitForMaster := st_raftWaitForMaster s;
     st_volumeWait := st_volumeWait s; st_r := st_r s; st_ms := st_ms s;
     st_peers := st_peers s; st_raftServer := st_raftServer s;
     st_volume_r := st_volume_r s; st_pcMain := st_pcMain s;
     st_pcMaster := st_pcMaster s; st_pcRaft := st_pcRaft s;
     st_exited := st_exited s; st_trace := v |}.

Definition tag (t : tid) (evs : list Event) : list (tid * Event) :=
  map (pair t) evs.

(** Goroutine [t] makes the calls [evs]. *)
Definition say (t : tid) (evs : list Event) (s : State) : State :=
  with_trace (st_trace s ++ tag t evs) s.

(** Goroutine [t] makes the calls [evs], the last of which ends the
    process ([glog.Fatalf], or a panic nobody recovers). *)
Definition die (t : tid) (evs : list Event) (s : State) : State :=
  with_exited (Some t) (say t evs s).

Definition counter (wg : WaitGroup) (s : State) : Z :=
  match wg with
  | raftWaitForMaster => st_raftWaitForMaster s
  | volumeWait => st_volumeWait s
  end.

Definition with_counter (wg : WaitGroup) (v : Z) (s : State) : State :=
  match wg with
  | raftWaitForMaster => with_raftWaitForMaster v s
  | volumeWait => with_volumeWait v s
  end.

(** [wg.Add(delta)], which panics when the counter becomes negative;
    [wg.Done()] is [wg.Add(-1)]. [k] is the rest of the statement. *)
Definition WaitGroup_add (t : tid) (wg : WaitGroup) (delta : Z) (e : Event)
    (k : State -> State) (s : State) : State :=
  let v := counter wg s + delta in
  if v <? 0 then die t [EPanic] s
  else k (say t [e] (with_counter wg v s)).

Definition WaitGroup_Add (t : tid) (wg : WaitGroup) (delta : Z) :=
  WaitGroup_add t wg delta (EAdd wg delta).

Definition WaitGroup_Done (t : tid) (wg : WaitGroup) :=
  WaitGroup_add t wg (-1) (EDone wg).

(** [wg.Wait()] returns when the counter is zero; until then the goroutine
    makes no step. *)
Definition WaitGroup_Wait (t : tid) (wg : WaitGroup)
    (k : State -> State) (s : State) : State :=
  if counter wg s =? 0 then k (say t [EWait wg] s) else s.

(** The address [ip:masterPort] built at lines 113, 127 and 142 from the
    flags -ip and -masterPort with [strconv.Itoa], and the address [ip:port]
    built at line 147 from -ip and -port. *)
Definition masterAddr (g : Globals) : string :=
  serverIp g ++ ":" ++ strconv_Itoa (masterPort g).

Definition volumeAddr (g : Globals) : string :=
  serverIp g ++ ":" ++ strconv_Itoa (volumePort g).

Section Machine.

Variable env : Env.

(** [util.NewListener(addr, timeout)] followed by
    [if e != nil { glog.Fatalf(e.Error()) }]. *)
Definition util_NewListener (t : tid) (addr : string) (timeout : Z)
    (k : State -> State) (s : State) : State :=
  if ListenOk env addr
  then k (say t [ENewListener addr timeout true] s)
  else die t [ENewListener addr timeout false; EFatalf (ListenFailed addr)] s.

(** A goroutine inside [http.Serve]: it stays there, unless the call comes
    back, and then [glog.Fatalf] ends the process (lines 134 and 154). *)
Definition http_Serve_returns (t : tid) (addr : string) (s : State) : State :=
  if ServeReturns env addr then die t [EFatalf (ServeFailed addr)] s else s.

Definition masterServerArgs (s : State) : MasterServerArgs :=
  let g := fr_globals (st_frame s) in
  {| ms_r := st_r s;
     ms_version := VERSION env;
     ms_port := masterPort g;
     ms_metaFolder := masterMetaFolder g;
     ms_volumeSizeLimitMB := masterVolumeSizeLimitMB g;
     ms_pulseSeconds := volumePulse g;
     ms_confFile := masterConfFile g;
     ms_defaultReplicaPlacement := masterDefaultReplicaPlacement g;
     ms_garbageThreshold := garbageThreshold env;
     ms_whiteList := serverWhiteList g |}.

Definition raftServerArgs (ms : MasterServer) (s : State) : RaftServerArgs :=
  let g := fr_globals (st_frame s) in
  {| rs_r := st_r s;
     rs_version := VERSION env;
     rs_peers := st_peers s;
     rs_httpAddr := masterAddr g;
     rs_dataDir := masterMetaFolder g;
     rs_topo := TopoOf (ms_args ms);
     rs_pulseSeconds := volumePulse g |}.

Definition volumeServerArgs (s : State) : VolumeServerArgs :=
  let g := fr_globals (st_frame s) in
  {| vs_r := st_volume_r s;
     vs_version := VERSION env;
     vs_ip := serverIp g;
     vs_port := volumePort g;
     vs_publicUrl := volumePublicUrl g;
     vs_folders := fr_folders (st_frame s);
     vs_maxCounts := fr_maxCounts (st_frame s);
     vs_masterNode := masterAddr g;
     vs_pulseSeconds := volumePulse g;
     vs_dataCenter := serverDataCenter g;
     vs_rack := serverRack g;
     vs_whiteList := serverWhiteList g |}.

(** Lines 102-105 and 138-156. *)
Definition stepMain (s : State) : State :=
  let g := fr_globals (st_frame s) in
  match st_pcMain s with
  | M_add_raft =>
      WaitGroup_Add Main raftWaitForMaster 1 (with_pcMain M_add_volume) s
  | M_add_volume =>
      WaitGroup_Add Main volumeWait 1 (with_pcMain M_go) s
  | M_go =>
      with_pcMain M_wait (say Main [EGo Master] (with_pcMaster G_newRouter s))
  | M_wait =>
      WaitGroup_Wait Main volumeWait (with_pcMain M_sleep) s
  | M_sleep =>
      with_pcMain M_newServeMux (say Main [ESleep (milliseconds 100)] s)
  | M_newServeMux =>
      with_pcMain M_newVolumeServer
        (say Main [ENewRouter VolumeMux] (with_volume_r VolumeMux s))
  | M_newVolumeServer =>
      with_pcMain M_newListener
        (say Main [ENewVolumeServer (volumeServerArgs s)] s)
  | M_newListener =>
      util_NewListener Main (volumeAddr g) (seconds (serverTimeout g))
        (with_pcMain M_serve) s
  | M_serve =>
      with_pcMain M_serving
        (say Main [EServe (volumeAddr g) (st_volume_r s)] s)
  | M_serving =>
      http_Serve_returns Main (volumeAddr g) s
  end.

(** Lines 106-119 and 132-135. *)
Definition stepMaster (s : State) : State :=
  let g := fr_globals (st_frame s) in
  match st_pcMaster s with
  | G_idle => s
  | G_newRouter =>
      with_pcMaster G_newMasterServer
        (say Master [ENewRouter MasterRouter] (with_r MasterRouter s))
  | G_newMasterServer =>
      let a := masterServerArgs s in
      with_pcMaster G_newListener
        (say Master [ENewMasterServer a]
           (with_ms (Some {| ms_args := a; ms_raftServer := None |}) s))
  | G_newListener =>
      util_NewListener Master (masterAddr g) (seconds (serverTimeout g))
        (with_pcMaster G_go) s
  | G_go =>
      with_pcMaster G_done (say Master [EGo Raft] (with_pcRaft R_wait s))
  | G_done =>
      WaitGroup_Done Master raftWaitForMaster (with_pcMaster G_serve) s
  | G_serve =>
      with_pcMaster G_serving (say Master [EServe (masterAddr g) (st_r s)] s)
  | G_serving =>
      http_Serve_returns Master (masterAddr g) s
  end.

(** Lines 121-129. [ms] and [r] are the variables of the enclosing
    function; a nil [ms] would make lines 127 and 128 panic. *)
Definition stepRaft (s : State) : State :=
  let g := fr_globals (st_frame s) in
  match st_pcRaft s with
  | R_idle => s
  | R_wait =>
      WaitGroup_Wait Raft raftWaitForMaster (with_pcRaft R_sleep) s
  | R_sleep =>
      with_pcRaft R_peers (say Raft [ESleep (milliseconds 100)] s)
  | R_peers =>
      with_pcRaft R_newRaftServer
        (with_peers (if negb (serverPeers g =? "")%string
                     then strings_Split (serverPeers g) ","
                     else []) s)
  | R_newRaftServer =>
      match st_ms s with
      | None => die Raft [EPanic] s
      | Some ms =>
          let a := raftServerArgs ms s in
          with_pcRaft R_setRaftServer
            (say Raft [ENewRaftServer a] (with_raftServer (Some a) s))
      end
  | R_setRaftServer =>
      match st_ms s with
      | None => die Raft [EPanic] s
      | Some ms =>
          with_pcRaft R_done
            (say Raft [ESetRaftServer (ms_args ms) (st_raftServer s)]
               (with_ms (Some {| ms_args := ms_args ms;
                                 ms_raftServer := st_raftServer s |}) s))
      end
  | R_done =>
      WaitGroup_Done Raft volumeWait (with_pcRaft R_end) s
  | R_end => s
  end.

(** The scheduler lets goroutine [t] run its next statement. Nothing runs
    once the process has ended; a goroutine that is blocked, not started or
    finished leaves the state as it is. *)
Definition step (t : tid) (s : State) : State :=
  match st_exited s with
  | Some _ => s
  | None =>
      match t with
      | Main => stepMain s
      | Master => stepMaster s
      | Raft => stepRaft s
      end
  end.

Definition run (sched : list tid) (s : State) : State :=
  fold_left (fun s t => step t s) sched s.

(** The state in which line 99 is reached. *)
Definition boot (fr : Frame) : State :=
  {| st_frame := fr;
     st_raftWaitForMaster := 0;
     st_volumeWait := 0;
     st_r := nilRouter;
     st_ms := None;
     st_peers := [];
     st_raftServer := None;
     st_volume_r := nilRouter;
     st_pcMain := M_add_raft;
     st_pcMaster := G_idle;
     st_pcRaft := R_idle;
     st_exited := None;
     st_trace := [] |}.

(** [runServer] on the flag values [flags], under the schedule [sched]:
    everything the process does, oldest first. The prefix runs before any
    other goroutine exists; when it ends the process, nothing follows.
    (Line 157 is never reached: [http.Serve] comes back only with an error,
    and line 154 then ends the process.) *)
Definition runServer (flags : Globals) (sched : list tid)
  : list (tid * Event) :=
  match Setup.setup env {| Setup.globals := flags; Setup.events := [] |} with
  | Setup.Exit w => tag Main (Setup.events w)
  | Setup.Continue (folders, maxCounts) w =>
      tag Main (Setup.events w) ++
      st_trace (run sched (boot {| fr_globals := Setup.globals w;
                                   fr_folders := folders;
                                   fr_maxCounts := maxCounts |}))
  end.

End Machine.

(** * Vocabulary of the statements *)

Import Setup.
Local Open Scope list_scope.

(** The folder the master keeps its meta data in: -mdir, or the whole of
    -dir when -mdir is empty (lines 66-68). *)
Definition metaFolder (g : Globals) : string :=
  if (masterMetaFolder g =? "")%string
  then volumeDataFolders g else masterMetaFolder g.

(** The argument of [runtime.GOMAXPROCS] (lines 61-64). *)
Definition maxProcs (env : Env) (g : Globals) : Z :=
  if serverMaxCpu g <? 1 then NumCPU env else serverMaxCpu g.

(** The package-level variables as the prefix leaves them when it does not
    end the process. *)
Definition normalize (env : Env) (g : Globals) : Globals :=
  let g := if serverMaxCpu g <? 1
           then set_serverMaxCpu (NumCPU env) g else g in
  let g := if (masterMetaFolder g =? "")%string
           then set_masterMetaFolder (volumeDataFolders g) g else g in
  let g := if (volumePublicUrl g =? "")%string
           then set_volumePublicUrl
                  (serverIp g ++ ":" ++ strconv_Itoa (volumePort g))%string g
           else g in
  if negb (serverWhiteListOption g =? "")%string
  then set_serverWhiteList (strings_Split (serverWhiteListOption g) ",") g
  else g.

Definition tested (ok : bool) (folder : string) : Event :=
  ETestFolderWritable folder ok.

Definition parses (maxString : string) (max : Z) : Prop :=
  strconv_Atoi maxString = Some max.

(** What the prefix does, case by case, in the order of its checks. *)
Inductive SetupOutcome (env : Env) (g : Globals)
  : Res (list string * list Z) -> Prop :=
| so_meta w :
    FolderWritable env (metaFolder g) = false ->
    events w = [EGOMAXPROCS (maxProcs env g);
                tested false (metaFolder g);
                EFatalf (MetaFolderNotWritable (metaFolder g))] ->
    SetupOutcome env g (Exit w)
| so_max w m :
    FolderWritable env (metaFolder g) = true ->
    In m (strings_Split (volumeMaxDataVolumeCounts g) ",") ->
    strconv_Atoi m = None ->
    events w = [EGOMAXPROCS (maxProcs env g);
                tested true (metaFolder g);
                EFatalf (MaxNotValidNumber m)] ->
    SetupOutcome env g (Exit w)
| so_mismatch w ns :
    FolderWritable env (metaFolder g) = true ->
    Forall2 parses (strings_Split (volumeMaxDataVolumeCounts g) ",") ns ->
    List.length (strings_Split (volumeDataFolders g) ",") <> List.length ns ->
    events w = [EGOMAXPROCS (maxProcs env g);
                tested true (metaFolder g);
                EFatalf (DirMaxMismatch
                           (List.length
                              (strings_Split (volumeDataFolders g) ","))
                           (List.length ns))] ->
    SetupOutcome env g (Exit w)
| so_folder w ns l1 f l2 :
    FolderWritable env (metaFolder g) = true ->
    Forall2 parses (strings_Split (volumeMaxDataVolumeCounts g) ",") ns ->
    List.length (strings_Split (volumeDataFolders g) ",") = List.length ns ->
    strings_Split (volumeDataFolders g) "," = l1 ++ f :: l2 ->
    FolderWritable env f = false ->
    events w = [EGOMAXPROCS (maxProcs env g); tested true (metaFolder g)] ++
               map (tested true) l1 ++
               [tested false f; EFatalf (DataFolderNotWritable f)] ->
    SetupOutcome env g (Exit w)
| so_ok w ns :
    FolderWritable env (metaFolder g) = true ->
    Forall2 parses (strings_Split (volumeMaxDataVolumeCounts g) ",") ns ->
    List.length (strings_Split (volumeDataFolders g) ",") = List.length ns ->
    forallb (FolderWritable env) (strings_Split (volumeDataFolders g) ",")
      = true ->
    globals w = normalize env g ->
    events w = [EGOMAXPROCS (maxProcs env g); tested true (metaFolder g)] ++
               map (tested true) (strings_Split (volumeDataFolders g) ",") ->
    SetupOutcome env g
      (Continue (strings_Split (volumeDataFolders g) ",", ns) w).

Definition start (flags : Globals) : World :=
  {| globals := flags; events := [] |}.

(** The calls of the prefix, and the errors it ends the process with. *)
Definition setupCall (e : Event) : Prop :=
  match e with
  | EGOMAXPROCS _ | ETestFolderWritable _ _ => True
  | _ => False
  end.

Definition configError (why : Fatal) : Prop :=
  match why with
  | MetaFolderNotWritable _ | MaxNotValidNumber _ | DirMaxMismatch _ _
  | DataFolderNotWritable _ => True
  | _ => False
  end.

Definition folderTest (e : Event) : Prop :=
  match e with
  | ETestFolderWritable _ _ => True
  | _ => False
  end.

(** The constructors of the three servers. *)
Definition constructs (e : Event) : Prop :=
  match e with
  | ENewMasterServer _ | ENewRaftServer _ | ENewVolumeServer _ => True
  | _ => False
  end.

Definition notGOMAXPROCS (e : Event) : Prop :=
  match e with
  | EGOMAXPROCS _ => False
  | _ => True
  end.

(** The configuration passes the checks of lines 69-90, [maxCounts] being
    the numbers read from -max. *)
Definition Accepted (env : Env) (flags : Globals) (maxCounts : list Z)
  : Prop :=
  FolderWritable env (metaFolder flags) = true /\
  Forall2 parses (strings_Split (volumeMaxDataVolumeCounts flags) ",")
          maxCounts /\
  List.length (strings_Split (volumeDataFolders flags) ",")
    = List.length maxCounts /\
  forallb (FolderWritable env) (strings_Split (volumeDataFolders flags) ",")
    = true.

(** What the concurrent part then starts from. *)
Definition frameOf (env : Env) (flags : Globals) (maxCounts : list Z)
  : Frame :=
  {| fr_globals := normalize env flags;
     fr_folders := strings_Split (volumeDataFolders flags) ",";
     fr_maxCounts := maxCounts |}.

Definition setupCalls (env : Env) (flags : Globals) : list Event :=
  [EGOMAXPROCS (maxProcs env flags); tested true (metaFolder flags)] ++
  map (tested true) (strings_Split (volumeDataFolders flags) ",").

(** ** Traces *)

Definition tid_eqb (a b : tid) : bool :=
  match a, b with
  | Main, Main | Master, Master | Raft, Raft => true
  | _, _ => false
  end.

(** What goroutine [t] did, in its own order. *)
Definition proj (t : tid) (tr : list (tid * Event)) : list Event :=
  map snd (filter (fun x => tid_eqb (fst x) t) tr).

(** How many statements a goroutine has completed. *)
Definition rankM (pc : MainPC) : nat :=
  match pc with
  | M_add_raft => 0 | M_add_volume => 1 | M_go => 2 | M_wait => 3
  | M_sleep => 4 | M_newServeMux => 5 | M_newVolumeServer => 6
  | M_newListener => 7 | M_serve => 8 | M_serving => 9
  end.

Definition rankG (pc : MasterPC) : nat :=
  match pc with
  | G_idle => 0 | G_newRouter => 1 | G_newMasterServer => 2
  | G_newListener => 3 | G_go => 4 | G_done => 5 | G_serve => 6
  | G_serving => 7
  end.

Definition rankR (pc : RaftPC) : nat :=
  match pc with
  | R_idle => 0 | R_wait => 1 | R_sleep => 2 | R_peers => 3
  | R_newRaftServer => 4 | R_setRaftServer => 5 | R_done => 6 | R_end => 7
  end.

(** [x] occurs in [tr], and [y] occurs later. *)
Definition before {A} (x y : A) (tr : list A) : Prop :=
  exists l1 l2 l3, tr = l1 ++ x :: l2 ++ y :: l3.

(** The peer list of lines 123-126. *)
Definition peersOf (g : Globals) : list string :=
  if negb (serverPeers g =? "")%string
  then strings_Split (serverPeers g) "," else [].

Section Scripts.

Variable env : Env.
Variable fr : Frame.

Local Abbreviation g := (fr_globals fr).

Definition expectedMaster : MasterServerArgs :=
  {| ms_r := MasterRouter;
     ms_version := VERSION env;
     ms_port := masterPort g;
     ms_metaFolder := masterMetaFolder g;
     ms_volumeSizeLimitMB := masterVolumeSizeLimitMB g;
     ms_pulseSeconds := volumePulse g;
     ms_confFile := masterConfFile g;
     ms_defaultReplicaPlacement := masterDefaultReplicaPlacement g;
     ms_garbageThreshold := garbageThreshold env;
     ms_whiteList := serverWhiteList g |}.

Definition expectedRaft : RaftServerArgs :=
  {| rs_r := MasterRouter;
     rs_version := VERSION env;
     rs_peers := peersOf g;
     rs_httpAddr := masterAddr g;
     rs_dataDir := masterMetaFolder g;
     rs_topo := TopoOf expectedMaster;
     rs_pulseSeconds := volumePulse g |}.

Definition expectedVolume : VolumeServerArgs :=
  {| vs_r := VolumeMux;
     vs_version := VERSION env;
     vs_ip := serverIp g;
     vs_port := volumePort g;
     vs_publicUrl := volumePublicUrl g;
     vs_folders := fr_folders fr;
     vs_maxCounts := fr_maxCounts fr;
     vs_masterNode := masterAddr g;
     vs_pulseSeconds := volumePulse g;
     vs_dataCenter := serverDataCenter g;
     vs_rack := serverRack g;
     vs_whiteList := serverWhiteList g |}.

(** The calls of each goroutine in program order, when nothing fails. *)
Definition mainScript : list Event :=
  [ EAdd raftWaitForMaster 1; EAdd volumeWait 1; EGo Master;
    EWait volumeWait; ESleep (milliseconds 100); ENewRouter VolumeMux;
    ENewVolumeServer expectedVolume;
    ENewListener (volumeAddr g) (seconds (serverTimeout g)) true;
    EServe (volumeAddr g) VolumeMux ].

Definition masterScript : list Event :=
  [ ENewRouter MasterRouter; ENewMasterServer expectedMaster;
    ENewListener (masterAddr g) (seconds (serverTimeout g)) true;
    EGo Raft; EDone raftWaitForMaster; EServe (masterAddr g) MasterRouter ].

Definition raftScript : list Event :=
  [ EWait raftWaitForMaster; ESleep (milliseconds 100);
    ENewRaftServer expectedRaft;
    ESetRaftServer expectedMaster (Some expectedRaft); EDone volumeWait ].

(** The last calls of a goroutine that ended the process: a listener that
    could not be opened, or [http.Serve] coming back. *)
Definition fatalTail (addr : string) (listening : bool) : list Event :=
  if listening
  then [ENewListener addr (seconds (serverTimeout g)) false;
        EFatalf (ListenFailed addr)]
  else [EFatalf (ServeFailed addr)].

Definition callsMain (pc : MainPC) : nat := rankM pc.

Definition callsMaster (pc : MasterPC) : nat := Nat.pred (rankG pc).

Definition callsRaft (pc : RaftPC) : nat :=
  match pc with
  | R_idle | R_wait => 0 | R_sleep => 1 | R_peers | R_newRaftServer => 2
  | R_setRaftServer => 3 | R_done => 4 | R_end => 5
  end.

Definition histMain (s : State) : list Event :=
  firstn (callsMain (st_pcMain s)) mainScript ++
  match st_exited s, st_pcMain s with
  | Some Main, M_newListener => fatalTail (volumeAddr g) true
  | Some Main, _ => fatalTail (volumeAddr g) false
  | _, _ => []
  end.

Definition histMaster (s : State) : list Event :=
  firstn (callsMaster (st_pcMaster s)) masterScript ++
  match st_exited s, st_pcMaster s with
  | Some Master, G_newListener => fatalTail (masterAddr g) true
  | Some Master, _ => fatalTail (masterAddr g) false
  | _, _ => []
  end.

Definition histRaft (s : State) : list Event :=
  firstn (callsRaft (st_pcRaft s)) raftScript.

Definition b2z (b : bool) : Z := if b then 1 else 0.

(** The calls that are ordered in every run, in that order: those of the
    main goroutine up to line 105, of the master goroutine up to line 132,
    of the raft goroutine, and of the main goroutine from line 138 on. *)
Definition criticalPath : list (tid * Event) :=
  tag Main (firstn 3 mainScript) ++ tag Master (firstn 5 masterScript) ++
  tag Raft raftScript ++ tag Main (skipn 3 mainScript).

(** The calls that are not on that path: [http.Serve] of the master
    goroutine, and the calls that end the process. *)
Definition floating (x : tid * Event) : bool :=
  match x with
  | (Master, EServe _ _) => true
  | (_, EFatalf _) => true
  | (_, EPanic) => true
  | (_, ENewListener _ _ false) => true
  | _ => false
  end.

Definition onPath (tr : list (tid * Event)) : list (tid * Event) :=
  filter (fun x => negb (floating x)) tr.

(** How far along the path the process is. *)
Definition progress (s : State) : nat :=
  callsMain (st_pcMain s) + Nat.min 5 (callsMaster (st_pcMaster s)) +
  callsRaft (st_pcRaft s).

Record Inv (s : State) : Prop := {
  inv_frame : st_frame s = fr;
  inv_master_started :
    (rankG (st_pcMaster s) = 0 <-> rankM (st_pcMain s) <= 2)%nat;
  inv_raft_started :
    (rankR (st_pcRaft s) = 0 <-> rankG (st_pcMaster s) <= 4)%nat;
  inv_raft_waited :
    (2 <= rankR (st_pcRaft s) -> 6 <= rankG (st_pcMaster s))%nat;
  inv_main_waited :
    (4 <= rankM (st_pcMain s) -> rankR (st_pcRaft s) = 7)%nat;
  inv_raftWaitForMaster :
    st_raftWaitForMaster s =
    b2z (1 <=? rankM (st_pcMain s))%nat - b2z (6 <=? rankG (st_pcMaster s))%nat;
  inv_volumeWait :
    st_volumeWait s =
    b2z (2 <=? rankM (st_pcMain s))%nat - b2z (7 <=? rankR (st_pcRaft s))%nat;
  inv_r :
    st_r s = if (2 <=? rankG (st_pcMaster s))%nat
             then MasterRouter else nilRouter;
  inv_ms :
    st_ms s =
    if (3 <=? rankG (st_pcMaster s))%nat
    then Some {| ms_args := expectedMaster;
                 ms_raftServer := if (6 <=? rankR (st_pcRaft s))%nat
                                  then Some expectedRaft else None |}
    else None;
  inv_peers :
    st_peers s = if (4 <=? rankR (st_pcRaft s))%nat then peersOf g else [];
  inv_raftServer :
    st_raftServer s = if (5 <=? rankR (st_pcRaft s))%nat
                      then Some expectedRaft else None;
  inv_volume_r :
    st_volume_r s = if (6 <=? rankM (st_pcMain s))%nat
                    then VolumeMux else nilRouter;
  inv_exited :
    match st_exited s with
    | None => True
    | Some Main => st_pcMain s = M_newListener \/ st_pcMain s = M_serving
    | Some Master => st_pcMaster s = G_newListener \/ st_pcMaster s = G_serving
    | Some Raft => False
    end;
  inv_main : proj Main (st_trace s) = histMain s;
  inv_master : proj Master (st_trace s) = histMaster s;
  inv_raft : proj Raft (st_trace s) = histRaft s;
  inv_path : onPath (st_trace s) = firstn (progress s) criticalPath
}.

(** Every call of the concurrent part is one of the script of its
    goroutine, or one of those that end the process. *)
Definition callsOf (t : tid) : list Event :=
  match t with
  | Main => mainScript ++ fatalTail (volumeAddr g) true ++
            fatalTail (volumeAddr g) false
  | Master => masterScript ++ fatalTail (masterAddr g) true ++
              fatalTail (masterAddr g) false
  | Raft => raftScript
  end.

End Scripts.

(** What an event says about the surroundings is what they answered. *)
Definition justified (env : Env) (x : tid * Event) : Prop :=
  match snd x with
  | ENewListener addr _ ok => ListenOk env addr = ok
  | EFatalf (ListenFailed addr) => ListenOk env addr = false
  | EFatalf (ServeFailed addr) => ServeReturns env addr = true
  | _ => True
  end.

(** ** A schedule *)

(** The master goroutine is held back right after line 132, before it
    calls [http.Serve], until the volume server has been built. *)
Definition serveLast : list tid :=
  repeat Main 3 ++ repeat Master 5 ++ repeat Raft 6 ++ repeat Main 4 ++
  [Master].

(** The master goroutine is held back there for good: the raft server and
    the volume server are built, and the volume server serves, without the
    master goroutine having called [http.Serve]. *)
Definition serveNever : list tid :=
  repeat Main 3 ++ repeat Master 5 ++ repeat Raft 6 ++ repeat Main 6.

(** The order of startup in the specification's words: the master's HTTP
    endpoint is started, that is the master goroutine has called
    [http.Serve], before the raft server is constructed. *)
Definition servedBeforeRaft (T : list (tid * Event)) : Prop :=
  forall t a,
    In (t, ENewRaftServer a) T ->
    exists addr r, before (Master, EServe addr r) (t, ENewRaftServer a) T.

Definition isNewRaftServer (x : tid * Event) : bool :=
  match snd x with
  | ENewRaftServer _ => true
  | _ => false
  end.

(** ** Concrete surroundings and flag values, for examples *)

Definition exampleEnv : Env :=
  {| VERSION := "0.51";
     garbageThreshold := "0.3";
     NumCPU := 4;
     FolderWritable := fun folder =>
       existsb (String.eqb folder) ["/tmp"; "/data1"; "/data2"; "/meta"];
     ListenOk := fun _ => true;
     ServeReturns := fun _ => false |}.

(** [weed server -dir=/data1,/data2 -max=7,9 -mdir=/meta -maxCpu=2
    -peers=m1:9333,m2:9333 -whiteList=10.0.0.1,10.0.0.2]. *)
Definition exampleFlags : Globals :=
  {| serverIp := "localhost";
     serverMaxCpu := 2;
     serverTimeout := 10;
     serverDataCenter := "";
     serverRack := "";
     serverWhiteListOption := "10.0.0.1,10.0.0.2";
     serverPeers := "m1:9333,m2:9333";
     masterPort := 9333;
     masterMetaFolder := "/meta";
     masterVolumeSizeLimitMB := 30 * 1000;
     masterConfFile := "/etc/weedfs/weedfs.conf";
     masterDefaultReplicaPlacement := "000";
     volumePort := 8080;
     volumePublicUrl := "";
     volumeDataFolders := "/data1,/data2";
     volumeMaxDataVolumeCounts := "7,9";
     volumePulse := 5;
     serverWhiteList := [] |}.

(** [weed server -dir=... -max=...], the other flags left alone; -mdir is
    then empty. *)
Definition weedServer (dir max : string) : Globals :=
  {| serverIp := "localhost";
     serverMaxCpu := 0;
     serverTimeout := 10;
     serverDataCenter := "";
     serverRack := "";
     serverWhiteListOption := "";
     serverPeers := "";
     masterPort := 9333;
     masterMetaFolder := "";
     masterVolumeSizeLimitMB := 30 * 1000;
     masterConfFile := "/etc/weedfs/weedfs.conf";
     masterDefaultReplicaPlacement := "000";
     volumePort := 8080;
     volumePublicUrl := "";
     volumeDataFolders := dir;
     volumeMaxDataVolumeCounts := max;
     volumePulse := 5;
     serverWhiteList := [] |}.

(** ** Vocabulary of the further properties *)

(** A schedule that takes the three goroutines from where they are in [s]
    to the construction of the volume server: main up to its [Wait], the
    master goroutine up to [raftWaitForMaster.Done], the raft goroutine to
    its end, then main again. *)
Definition completion (s : State) : list tid :=
  repeat Main (3 - rankM (st_pcMain s)) ++
  repeat Master (6 - Nat.max 1 (rankG (st_pcMaster s))) ++
  repeat Raft (7 - Nat.max 1 (rankR (st_pcRaft s))) ++
  repeat Main (7 - Nat.max 3 (rankM (st_pcMain s))).

(** Main starts the master goroutine, which runs up to the check of its
    listener. *)
Definition listenFails : list tid := repeat Main 3 ++ repeat Master 3.

(** The calls of the two other constructors. *)
Definition isNewMasterServer (x : tid * Event) : bool :=
  match snd x with
  | ENewMasterServer _ => true
  | _ => false
  end.

Definition isNewVolumeServer (x : tid * Event) : bool :=
  match snd x with
  | ENewVolumeServer _ => true
  | _ => false
  end.

(** A piece of a comma-separated flag. *)
Definition noComma (piece : string) : Prop :=
  ~ In ","%char (list_ascii_of_string piece).

(** The values of Go's [int] on a 64-bit platform. *)
Definition inIntRange (n : Z) : Prop := - 2 ^ 63 <= n <= 2 ^ 63 - 1.

(** Main starts the master goroutine, which constructs the master server. *)
Definition startMaster : list tid := repeat Main 3 ++ repeat Master 2.

(** Surroundings in which no address can be listened on. *)
Definition deafEnv : Env :=
  {| VERSION := VERSION exampleEnv;
     garbageThreshold := garbageThreshold exampleEnv;
     NumCPU := NumCPU exampleEnv;
     FolderWritable := FolderWritable exampleEnv;
     ListenOk := fun _ => false;
     ServeReturns := ServeReturns exampleEnv |}.

(** [exampleFlags] with -publicUrl=files.example.com:80. *)
Definition publicFlags : Globals :=
  set_volumePublicUrl "files.example.com:80" exampleFlags.

(** [weed server -dir=/data1,/data2 -max=7 -mdir=/meta]. *)
Definition mismatchFlags : Globals :=
  set_masterMetaFolder "/meta" (weedServer "/data1,/data2" "7").

(** [weed server -dir=/data1,/nope,/data2 -max=7,8,9 -mdir=/meta]. *)
Definition unwritableFlags : Globals :=
  set_masterMetaFolder "/meta" (weedServer "/data1,/nope,/data2" "7,8,9").

(** * Properties of the prefix *)

Lemma parseMaxCounts_spec (l : list string) :
  forall (acc : list Z) (w : World),
    (exists ns, Forall2 parses l ns /\
                parseMaxCounts l acc w = Continue (acc ++ ns)%list w) \/
    (exists m, In m l /\ strconv_Atoi m = None /\
               parseMaxCounts l acc w =
               Exit {| globals := globals w;
                       events :=
                         events w ++ [EFatalf (MaxNotValidNumber m)] |}).
Proof.
  induction l as [|m l IH]; intros acc w; simpl.
  - left. exists []. split; [constructor|]. now rewrite app_nil_r.
  - destruct (strconv_Atoi m) as [n|] eqn:Hm.
    + destruct (IH (acc ++ [n]) w) as [(ns & Hns & ->)|(m' & Hin & Hbad & ->)].
      * left. exists (n :: ns). split; [now constructor|].
        now rewrite <- app_assoc.
      * right. exists m'. auto.
    + right. exists m. auto.
Qed.

Lemma checkDataFolders_spec (env : Env) (l : list string) :
  forall w : World,
    (forallb (FolderWritable env) l = true /\
     checkDataFolders env l w =
     Continue tt {| globals := globals w;
                    events := events w ++ map (tested true) l |}) \/
    (exists l1 f l2,
        l = l1 ++ f :: l2 /\ FolderWritable env f = false /\
        checkDataFolders env l w =
        Exit {| globals := globals w;
                events := events w ++ map (tested true) l1 ++
                          [tested false f;
                           EFatalf (DataFolderNotWritable f)] |}).
Proof.
  induction l as [|f l IH]; intros [g0 ev]; simpl.
  - left. split; [reflexivity|]. unfold ret. now rewrite app_nil_r.
  - unfold bind, util_TestFolderWritable, emit, ret. simpl.
    destruct (FolderWritable env f) eqn:Hf; simpl.
    + destruct (IH {| globals := g0;
                      events := ev ++ [ETestFolderWritable f true] |})
        as [[Hall Heq]|(l1 & f' & l2 & Hl & Hbad & Heq)];
        rewrite Heq; simpl.
      * left. split; [assumption|]. now rewrite <- app_assoc.
      * right. exists (f :: l1), f', l2. subst l. repeat split; auto.
        simpl. now rewrite <- app_assoc.
    + right. exists [], f, l. repeat split; auto.
      unfold glog_Fatalf. simpl. now rewrite <- app_assoc.
Qed.

Lemma setup_spec (env : Env) (g : Globals) :
  SetupOutcome env g (setup env (start g)).
Proof.
  cbv beta iota zeta delta [setup start bind load store emit when
    util_TestFolderWritable ret glog_Fatalf].
  cbn [globals events app].
  destruct (serverMaxCpu g <? 1) eqn:Hcpu;
    cbn [globals events app set_serverMaxCpu masterMetaFolder
         volumeDataFolders serverMaxCpu] in *.
  all: destruct (masterMetaFolder g =? "")%string eqn:Hmd;
    cbn [globals events app set_masterMetaFolder masterMetaFolder
         volumeDataFolders set_serverMaxCpu] in *.
  all: match goal with
       | |- context [FolderWritable _ ?f] =>
           destruct (FolderWritable _ f) eqn:Hw
       end;
    cbn [negb globals events app];
    [| apply so_meta; unfold metaFolder, maxProcs, tested;
       rewrite ?Hcpu, ?Hmd; [assumption | reflexivity]].
  all: cbn [volumeMaxDataVolumeCounts volumeDataFolders
            set_masterMetaFolder set_serverMaxCpu].
  all: match goal with
       | |- context [parseMaxCounts ?l ?acc ?w] =>
           destruct (parseMaxCounts_spec l acc w)
             as [(ns & Hns & Heq)|(m & Hin & Hbad & Heq)]; rewrite Heq;
           clear Heq;
           [| eapply so_max; unfold metaFolder, maxProcs, tested;
              rewrite ?Hcpu, ?Hmd; eauto ]
       end.
  all: cbn [app globals events].
  all: destruct (Nat.eqb_spec
                   (List.length (strings_Split (volumeDataFolders g) ","))
                   (List.length ns)) as [Hlen|Hlen];
    cbn [negb globals events app];
    [| eapply so_mismatch; unfold metaFolder, maxProcs, tested;
       rewrite ?Hcpu, ?Hmd; eauto ].
  all: match goal with
       | |- context [checkDataFolders ?e ?l ?w] =>
           destruct (checkDataFolders_spec e l w)
             as [[Hall Heq]|(l1 & f & l2 & Hsplit & Hf & Heq)]; rewrite Heq;
           clear Heq;
           [| eapply so_folder; unfold metaFolder, maxProcs;
              rewrite ?Hcpu, ?Hmd; eauto ]
       end.
  all: cbn [globals events app volumePublicUrl serverIp volumePort
            serverWhiteListOption set_serverMaxCpu set_masterMetaFolder] in *.
  all: destruct (volumePublicUrl g =? "")%string eqn:Hpu;
    cbn [serverWhiteListOption set_volumePublicUrl set_masterMetaFolder
         set_serverMaxCpu] in *;
    destruct (serverWhiteListOption g =? "")%string eqn:Hwl;
    cbn [negb globals events] in *.
  all: apply so_ok; unfold metaFolder, maxProcs; rewrite ?Hcpu, ?Hmd; auto.
  all: cbn [globals]; unfold normalize; rewrite Hcpu;
    cbn [masterMetaFolder set_serverMaxCpu]; rewrite Hmd;
    cbn [volumePublicUrl set_masterMetaFolder set_serverMaxCpu
         volumeDataFolders serverIp volumePort serverWhiteListOption];
    rewrite Hpu;
    cbn [serverWhiteListOption set_volumePublicUrl set_masterMetaFolder
         set_serverMaxCpu];
    rewrite Hwl; reflexivity.
Qed.

(** * Properties of the concurrent part *)

Ltac list_assoc :=
  repeat (rewrite <- app_assoc || rewrite <- app_comm_cons); reflexivity.

Section Lists.

Context {A : Type}.

Lemma In_firstn (n : nat) (l : list A) (x : A) :
  In x (firstn n l) -> In x l.
Proof.
  intros H. rewrite <- (firstn_skipn n l). apply in_or_app. now left.
Qed.

Lemma filter_split (f : A -> bool) (l : list A) :
  forall a b, filter f l = a ++ b ->
    exists l1 l2, l = l1 ++ l2 /\ filter f l1 = a /\ filter f l2 = b.
Proof.
  induction l as [|h t IH]; intros a b H; simpl in H.
  - symmetry in H. apply app_eq_nil in H as [-> ->]. now exists [], [].
  - destruct (f h) eqn:Hh.
    + destruct a as [|a0 a]; simpl in H.
      * exists [], (h :: t). simpl. rewrite Hh. auto.
      * injection H as <- H. destruct (IH _ _ H) as (l1 & l2 & -> & <- & <-).
        exists (h :: l1), l2. simpl. rewrite Hh. auto.
    + destruct (IH _ _ H) as (l1 & l2 & -> & <- & <-).
      exists (h :: l1), l2. simpl. rewrite Hh. auto.
Qed.

Lemma filter_head (f : A -> bool) (l : list A) :
  forall x r, filter f l = x :: r ->
    exists l1 l2, l = l1 ++ x :: l2 /\ filter f l2 = r.
Proof.
  induction l as [|h t IH]; intros x r H; simpl in H; [discriminate|].
  destruct (f h) eqn:Hh.
  - injection H as -> <-. now exists [], t.
  - destruct (IH _ _ H) as (l1 & l2 & -> & <-). now exists (h :: l1), l2.
Qed.

Lemma before_filter (f : A -> bool) (x y : A) (tr : list A) :
  before x y (filter f tr) -> before x y tr.
Proof.
  intros (l1 & l2 & l3 & H).
  apply filter_split in H as (t1 & t2 & -> & _ & H).
  apply filter_head in H as (u1 & u2 & -> & H).
  apply filter_split in H as (v1 & v2 & -> & _ & H).
  apply filter_head in H as (w1 & w2 & -> & _).
  exists (t1 ++ u1), (v1 ++ w1), w2. list_assoc.
Qed.

Lemma before_firstn (n : nat) (x y : A) (l : list A) :
  NoDup l -> before x y l -> In y (firstn n l) -> before x y (firstn n l).
Proof.
  intros Hnd (l1 & l2 & l3 & ->) Hin.
  replace (l1 ++ x :: l2 ++ y :: l3) with ((l1 ++ x :: l2) ++ y :: l3) in *
    by now rewrite <- app_assoc.
  rewrite firstn_app in *.
  destruct (n - length (l1 ++ x :: l2))%nat as [|k] eqn:Hk.
  - exfalso. simpl in Hin. rewrite app_nil_r in Hin.
    apply In_firstn in Hin. apply NoDup_remove_2 in Hnd.
    apply Hnd, in_or_app. now left.
  - rewrite firstn_all2 by lia. simpl.
    exists l1, l2, (firstn k l3). list_assoc.
Qed.

Lemma before_app_r (x y : A) (l l' : list A) :
  before x y l' -> before x y (l ++ l').
Proof.
  intros (l1 & l2 & l3 & ->). exists (l ++ l1), l2, l3. list_assoc.
Qed.

Lemma before_across (x y : A) (l l' : list A) :
  In x l -> In y l' -> before x y (l ++ l').
Proof.
  intros Hx Hy. apply in_split in Hx as (a & b & ->).
  apply in_split in Hy as (c & d & ->).
  exists a, (b ++ c), d. list_assoc.
Qed.

End Lists.

Section Invariant.

Variable env : Env.
Variable fr : Frame.

Lemma boot_inv : Inv env fr (boot fr).
Proof.
  constructor; cbn; try reflexivity; try lia; auto.
Qed.

Lemma proj_app t l1 l2 : proj t (l1 ++ l2) = proj t l1 ++ proj t l2.
Proof. unfold proj. now rewrite filter_app, map_app. Qed.

Lemma onPath_app l1 l2 : onPath (l1 ++ l2) = onPath l1 ++ onPath l2.
Proof. unfold onPath. now rewrite filter_app. Qed.

Lemma proj_tag_same t evs : proj t (tag t evs) = evs.
Proof.
  unfold proj, tag. induction evs as [|e evs IH]; simpl; [reflexivity|].
  destruct t; simpl; now rewrite IH.
Qed.

Lemma proj_tag_other t u evs : t <> u -> proj t (tag u evs) = [].
Proof.
  intros Hne. unfold proj, tag. induction evs as [|e evs IH]; simpl;
    [reflexivity|].
  destruct t, u; simpl; try congruence; exact IH.
Qed.

Ltac open_step :=
  unfold stepMain, stepMaster, stepRaft, WaitGroup_Add, WaitGroup_Done,
    WaitGroup_add, WaitGroup_Wait, util_NewListener, http_Serve_returns,
    die, say, counter, with_counter, masterServerArgs, raftServerArgs,
    volumeServerArgs.

Ltac crunch :=
  cbn -[seconds milliseconds masterAddr volumeAddr peersOf strings_Split
        expectedMaster expectedRaft expectedVolume mainScript masterScript
        raftScript firstn proj tag onPath criticalPath] in *.

Ltac prune := crunch; try (exfalso; lia).

Ltac trace_goal H :=
  rewrite proj_app, H; unfold tag, proj;
  cbn [map filter fst snd tid_eqb app]; rewrite ?app_nil_r; reflexivity.

Ltac path_goal H :=
  rewrite onPath_app, H; unfold tag, onPath;
  cbn [map filter floating negb app]; rewrite ?app_nil_r; reflexivity.

Ltac inv_goals Htm Htg Htr Hpath :=
  constructor; unfold histMain, histMaster, histRaft, progress; crunch;
  try reflexivity; try lia; auto;
  try solve [trace_goal Htm | trace_goal Htg | trace_goal Htr
            | path_goal Hpath].

Lemma step_inv (t : tid) (s : State) :
  Inv env fr s -> Inv env fr (step env t s).
Proof.
  intros [Hfr Hms Hrs Hrw Hmw Hwr Hwv Hr Hm Hp Hrf Hvr Hex Htm Htg Htr Hpath].
  unfold histMain, histMaster, histRaft, progress in *.
  destruct s as [fr' wr wv r ms peers rs vr pm pg pr ex tr].
  cbn [st_frame st_raftWaitForMaster st_volumeWait st_r st_ms st_peers
       st_raftServer st_volume_r st_pcMain st_pcMaster st_pcRaft st_exited
       st_trace] in *.
  subst fr'. unfold step. cbn [st_exited].
  destruct ex as [ex|].
  { constructor; unfold histMain, histMaster, histRaft, progress; cbn; auto. }
  rewrite app_nil_r in Htm, Htg.
  destruct pm, pg; prune; destruct pr; prune; subst wr wv r ms peers rs vr;
    destruct t; open_step; crunch.
  all: try solve [constructor;
                  unfold histMain, histMaster, histRaft, progress; crunch;
                  rewrite ?app_nil_r; auto; lia].
  all: try match goal with
         | |- context [ListenOk env ?a] => destruct (ListenOk env a)
         | |- context [ServeReturns env ?a] => destruct (ServeReturns env a)
         end.
  all: inv_goals Htm Htg Htr Hpath.
Qed.

Lemma run_inv (sched : list tid) :
  forall s, Inv env fr s -> Inv env fr (run env sched s).
Proof.
  induction sched as [|t sched IH]; intros s Hs; simpl; [assumption|].
  apply IH, step_inv, Hs.
Qed.

Lemma reach_inv (sched : list tid) : Inv env fr (run env sched (boot fr)).
Proof. apply run_inv, boot_inv. Qed.

Lemma In_proj t e tr : In (t, e) tr <-> In e (proj t tr).
Proof.
  unfold proj. rewrite in_map_iff. split.
  - intros H. exists (t, e). split; [reflexivity|].
    apply filter_In. split; [assumption|]. now destruct t.
  - intros ([t' e'] & <- & H). apply filter_In in H as [H Ht].
    simpl in *. now destruct t', t.
Qed.

Lemma trace_calls (s : State) t e :
  Inv env fr s -> In (t, e) (st_trace s) -> In e (callsOf env fr t).
Proof.
  intros Hs Hin. apply In_proj in Hin. unfold callsOf.
  destruct t.
  - rewrite (inv_main env fr s Hs) in Hin. unfold histMain in Hin.
    apply in_app_or in Hin as [Hin|Hin]; apply in_or_app.
    + left. eapply In_firstn, Hin.
    + right. apply in_or_app.
      destruct (st_exited s) as [[]|]; try contradiction;
        destruct (st_pcMain s); auto.
  - rewrite (inv_master env fr s Hs) in Hin. unfold histMaster in Hin.
    apply in_app_or in Hin as [Hin|Hin]; apply in_or_app.
    + left. eapply In_firstn, Hin.
    + right. apply in_or_app.
      destruct (st_exited s) as [[]|]; try contradiction;
        destruct (st_pcMaster s); auto.
  - rewrite (inv_raft env fr s Hs) in Hin. eapply In_firstn, Hin.
Qed.

Lemma criticalPath_NoDup : NoDup (criticalPath env fr).
Proof.
  unfold criticalPath, tag, mainScript, masterScript, raftScript.
  cbn [map firstn skipn app].
  repeat (constructor; [cbn [In]; intuition congruence|]).
  constructor.
Qed.

Lemma criticalPath_onPath x :
  In x (criticalPath env fr) -> floating x = false.
Proof.
  unfold criticalPath, tag, mainScript, masterScript, raftScript.
  cbn [map firstn skipn app In].
  intuition (subst; reflexivity).
Qed.

(** The calls on the critical path happen in the order of the path. *)
Lemma ordered (s : State) (x y : tid * Event) :
  Inv env fr s -> before x y (criticalPath env fr) ->
  In y (st_trace s) -> before x y (st_trace s).
Proof.
  intros Hs Hxy Hin.
  apply (before_filter (fun x => negb (floating x))).
  fold (onPath (st_trace s)). rewrite (inv_path env fr s Hs).
  apply before_firstn; [apply criticalPath_NoDup | assumption |].
  rewrite <- (inv_path env fr s Hs). apply filter_In. split; [assumption|].
  rewrite criticalPath_onPath; [reflexivity|].
  destruct Hxy as (l1 & l2 & l3 & ->).
  apply in_or_app. right. right. apply in_or_app. right. now left.
Qed.

End Invariant.

(** Running a schedule, one step at a time. *)
Lemma run_cons env t rest s :
  run env (t :: rest) s = run env rest (step env t s).
Proof. reflexivity. Qed.

(** One statement of one goroutine, on an explicit state. *)
Ltac eval_step :=
  cbv [step stepMain stepMaster stepRaft
         WaitGroup_Add WaitGroup_Done WaitGroup_add WaitGroup_Wait
         util_NewListener http_Serve_returns die say counter with_counter
         masterServerArgs raftServerArgs volumeServerArgs
         with_raftWaitForMaster with_volumeWait with_r with_ms with_peers
         with_raftServer with_volume_r with_pcMain with_pcMaster with_pcRaft
         with_exited with_trace
         st_frame st_raftWaitForMaster st_volumeWait st_r st_ms st_peers
         st_raftServer st_volume_r st_pcMain st_pcMaster st_pcRaft st_exited
         st_trace Z.add Z.ltb Z.eqb Z.compare Pos.compare Pos.compare_cont
         Z.pos_sub Z.succ_double Z.pred_double Z.double Pos.pred_double
         Z.opp Pos.add Pos.succ].

Lemma serveLast_trace (env : Env) (fr : Frame) :
  ListenOk env (masterAddr (fr_globals fr)) = true ->
  st_trace (run env serveLast (boot fr)) =
  tag Main (firstn 3 (mainScript env fr)) ++
  tag Master (firstn 5 (masterScript env fr)) ++
  tag Raft (raftScript env fr) ++
  tag Main (firstn 4 (skipn 3 (mainScript env fr))) ++
  [(Master, EServe (masterAddr (fr_globals fr)) MasterRouter)].
Proof.
  intros Hm. unfold serveLast.
  cbv [repeat app boot].
  repeat (rewrite run_cons; eval_step; rewrite ?Hm).
  reflexivity.
Qed.

(** * The whole of [runServer] *)

Lemma parses_unique (l : list string) :
  forall a b, Forall2 parses l a -> Forall2 parses l b -> a = b.
Proof.
  induction l as [|m l IH]; intros a b Ha Hb; inversion Ha; inversion Hb;
    subst; [reflexivity|].
  f_equal; [unfold parses in *; congruence | now apply IH].
Qed.

Lemma Forall_map_tested (ok : bool) (l : list string) :
  Forall folderTest (map (tested ok) l).
Proof. induction l; simpl; constructor; simpl; auto. Qed.

Lemma folderTest_setupCall (evs : list Event) :
  Forall folderTest evs -> Forall setupCall evs.
Proof.
  apply Forall_impl. intros [] H; simpl in *; auto.
Qed.

Section Whole.

Variable env : Env.
Variable flags : Globals.

Lemma runServer_accepted (maxCounts : list Z) (sched : list tid) :
  Accepted env flags maxCounts ->
  runServer env flags sched =
  tag Main (setupCalls env flags) ++
  st_trace (run env sched (boot (frameOf env flags maxCounts))).
Proof.
  intros (Hmeta & Hparse & Hlen & Hall).
  unfold runServer. change {| globals := flags; events := [] |}
    with (start flags).
  destruct (setup_spec env flags) as
    [w Hw _ | w m _ Hin Hbad _ | w ns _ Hns Hne _
    | w ns l1 f l2 _ _ _ Hsplit Hf _ | w ns _ Hns _ _ Hg He].
  - congruence.
  - exfalso. clear - Hparse Hin Hbad.
    induction Hparse as [|x y l l' Hxy _ IH]; [contradiction|].
    destruct Hin as [->|Hin]; [unfold parses in Hxy; congruence | auto].
  - exfalso. now rewrite (parses_unique _ _ _ Hns Hparse) in Hne.
  - exfalso. rewrite Hsplit, forallb_app in Hall. simpl in Hall.
    rewrite Hf in Hall. rewrite andb_false_r in Hall. discriminate.
  - rewrite (parses_unique _ _ _ Hns Hparse).
    unfold frameOf, setupCalls. now rewrite Hg, He.
Qed.

Lemma runServer_rejected :
  (forall maxCounts, ~ Accepted env flags maxCounts) ->
  exists evs why,
    configError why /\ Forall folderTest evs /\
    forall sched,
      runServer env flags sched =
      tag Main (EGOMAXPROCS (maxProcs env flags) :: evs ++ [EFatalf why]).
Proof.
  intros Hrej.
  unfold runServer. change {| globals := flags; events := [] |}
    with (start flags).
  destruct (setup_spec env flags) as
    [w Hw He | w m Hw Hin Hbad He | w ns Hw Hns Hne He
    | w ns l1 f l2 Hw Hns Hlen Hsplit Hf He | w ns Hw Hns Hlen Hall Hg He].
  - exists [tested false (metaFolder flags)],
      (MetaFolderNotWritable (metaFolder flags)).
    repeat split; [repeat constructor|]. intros _. now rewrite He.
  - exists [tested true (metaFolder flags)], (MaxNotValidNumber m).
    repeat split; [repeat constructor|]. intros _. now rewrite He.
  - eexists [tested true (metaFolder flags)], (DirMaxMismatch _ _).
    repeat split; [repeat constructor|]. intros _. now rewrite He.
  - exists (tested true (metaFolder flags) ::
            map (tested true) l1 ++ [tested false f]),
      (DataFolderNotWritable f).
    repeat split.
    + constructor; [exact I|]. apply Forall_app. split.
      * apply Forall_map_tested.
      * repeat constructor.
    + intros _. rewrite He. simpl. now rewrite <- app_assoc.
  - exfalso. apply (Hrej ns). repeat split; assumption.
Qed.

Lemma accepted_or_not :
  (exists maxCounts, Accepted env flags maxCounts) \/
  (forall maxCounts, ~ Accepted env flags maxCounts).
Proof.
  destruct (setup_spec env flags) as
    [w Hw He | w m Hw Hin Hbad He | w ns Hw Hns Hne He
    | w ns l1 f l2 Hw Hns Hlen Hsplit Hf He | w ns Hw Hns Hlen Hall Hg He].
  - right. intros ns (H & _). congruence.
  - right. intros ns (_ & Hparse & _). clear - Hparse Hin Hbad.
    induction Hparse as [|x y l l' Hxy _ IH]; [contradiction|].
    destruct Hin as [->|Hin]; [unfold parses in Hxy; congruence | auto].
  - right. intros ns' (_ & Hparse & Hl & _).
    now rewrite (parses_unique _ _ _ Hns Hparse) in Hne.
  - right. intros ns' (_ & _ & _ & Hall).
    rewrite Hsplit, forallb_app in Hall. simpl in Hall.
    rewrite Hf in Hall. rewrite andb_false_r in Hall. discriminate.
  - left. exists ns. repeat split; assumption.
Qed.

(** A call that is not one of the prefix is a call of the concurrent part,
    and the configuration was accepted. *)
Lemma runServer_calls (sched : list tid) (t : tid) (e : Event) :
  In (t, e) (runServer env flags sched) ->
  (t = Main /\ (setupCall e \/ exists why, e = EFatalf why /\ configError why))
  \/ exists maxCounts,
       Accepted env flags maxCounts /\
       In (t, e)
          (st_trace (run env sched (boot (frameOf env flags maxCounts)))).
Proof.
  intros Hin.
  assert (Hsetup : forall evs, Forall setupCall evs ->
            In (t, e) (tag Main evs) -> t = Main /\ setupCall e).
  { intros evs Hall H. unfold tag in H. apply in_map_iff in H
      as (e' & [= <- <-] & H). split; [reflexivity|].
    rewrite Forall_forall in Hall. auto. }
  destruct accepted_or_not as [(ns & Hacc)|Hrej].
  - rewrite (runServer_accepted ns sched Hacc) in Hin.
    apply in_app_or in Hin as [Hin|Hin].
    + left. apply Hsetup in Hin as [-> He]; [auto|].
      unfold setupCalls. repeat constructor.
      apply folderTest_setupCall, Forall_map_tested.
    + right. exists ns. auto.
  - left. destruct (runServer_rejected Hrej) as (evs & why & Hwhy & Hall & Heq).
    rewrite Heq in Hin.
    change (EGOMAXPROCS (maxProcs env flags) :: evs ++ [EFatalf why])
      with ((EGOMAXPROCS (maxProcs env flags) :: evs) ++ [EFatalf why]) in Hin.
    unfold tag in Hin. rewrite map_app in Hin.
    apply in_app_or in Hin as [Hin|Hin].
    + apply (Hsetup (EGOMAXPROCS (maxProcs env flags) :: evs)) in Hin
        as [-> He]; [auto|].
      constructor; [exact I | now apply folderTest_setupCall].
    + destruct Hin as [[= <- <-]|[]]. split; [reflexivity|]. right. eauto.
Qed.

End Whole.

(** The prefix leaves the flags it does not assign as they were. *)
Ltac normalize_cases :=
  unfold normalize, maxProcs, metaFolder;
  repeat match goal with
    | |- context [if ?c then _ else _] => destruct c eqn:?
    end;
  cbn -[strings_Split strconv_Itoa] in *;
  try match goal with
    | H : negb ?b = _, H' : ?b = _ |- _ => rewrite H' in H; discriminate H
    end;
  try reflexivity; try congruence.

Lemma normalize_serverIp env g : serverIp (normalize env g) = serverIp g.
Proof. normalize_cases. Qed.

Lemma normalize_masterPort env g : masterPort (normalize env g) = masterPort g.
Proof. normalize_cases. Qed.

Lemma normalize_volumePort env g : volumePort (normalize env g) = volumePort g.
Proof. normalize_cases. Qed.

Lemma normalize_volumePulse env g :
  volumePulse (normalize env g) = volumePulse g.
Proof. normalize_cases. Qed.

Lemma normalize_serverPeers env g :
  serverPeers (normalize env g) = serverPeers g.
Proof. normalize_cases. Qed.

Lemma normalize_masterMetaFolder env g :
  masterMetaFolder (normalize env g) = metaFolder g.
Proof. normalize_cases. Qed.

Lemma normalize_volumePublicUrl env g :
  volumePublicUrl (normalize env g) =
  if (volumePublicUrl g =? "")%string
  then (serverIp g ++ ":" ++ strconv_Itoa (volumePort g))%string
  else volumePublicUrl g.
Proof. normalize_cases. Qed.

Lemma normalize_serverWhiteList env g :
  serverWhiteList (normalize env g) =
  if (serverWhiteListOption g =? "")%string
  then serverWhiteList g
  else strings_Split (serverWhiteListOption g) ",".
Proof. normalize_cases. Qed.

Lemma normalize_masterAddr env g : masterAddr (normalize env g) = masterAddr g.
Proof.
  unfold masterAddr. now rewrite normalize_serverIp, normalize_masterPort.
Qed.

Lemma normalize_peersOf env g : peersOf (normalize env g) = peersOf g.
Proof. unfold peersOf. now rewrite normalize_serverPeers. Qed.

(** The three constructors are called by one goroutine each, with the
    arguments of the scripts. *)
Ltac script_cases H :=
  unfold callsOf, mainScript, masterScript, raftScript, fatalTail in H;
  cbn [In app] in H;
  repeat match type of H with
    | _ \/ _ => destruct H as [H|H]
    | False => contradiction
    end;
  try discriminate H.

Section Calls.

Variables (env : Env) (flags : Globals) (sched : list tid).

Lemma concurrent_call (t : tid) (e : Event) :
  ~ setupCall e -> (forall why, e <> EFatalf why) ->
  In (t, e) (runServer env flags sched) ->
  exists maxCounts,
    Accepted env flags maxCounts /\
    In (t, e) (st_trace (run env sched (boot (frameOf env flags maxCounts)))) /\
    In e (callsOf env (frameOf env flags maxCounts) t).
Proof.
  intros Hns Hnf Hin.
  apply runServer_calls in Hin as [(_ & [H|(why & -> & _)])|(ns & Hacc & Hin)].
  - contradiction.
  - now destruct (Hnf why).
  - exists ns. split; [assumption|]. split; [assumption|].
    eapply trace_calls; [apply reach_inv | exact Hin].
Qed.

Lemma master_call (t : tid) (m : MasterServerArgs) :
  In (t, ENewMasterServer m) (runServer env flags sched) ->
  exists maxCounts,
    Accepted env flags maxCounts /\ t = Master /\
    m = expectedMaster env (frameOf env flags maxCounts).
Proof.
  intros Hin. apply concurrent_call in Hin as (ns & Hacc & _ & H);
    [| simpl; tauto | discriminate].
  exists ns. split; [assumption|].
  destruct t; script_cases H. now injection H as <-.
Qed.

Lemma raft_call (t : tid) (a : RaftServerArgs) :
  In (t, ENewRaftServer a) (runServer env flags sched) ->
  exists maxCounts,
    Accepted env flags maxCounts /\ t = Raft /\
    a = expectedRaft env (frameOf env flags maxCounts).
Proof.
  intros Hin. apply concurrent_call in Hin as (ns & Hacc & _ & H);
    [| simpl; tauto | discriminate].
  exists ns. split; [assumption|].
  destruct t; script_cases H. now injection H as <-.
Qed.

Lemma volume_call (t : tid) (v : VolumeServerArgs) :
  In (t, ENewVolumeServer v) (runServer env flags sched) ->
  exists maxCounts,
    Accepted env flags maxCounts /\ t = Main /\
    v = expectedVolume env (frameOf env flags maxCounts).
Proof.
  intros Hin. apply concurrent_call in Hin as (ns & Hacc & _ & H);
    [| simpl; tauto | discriminate].
  exists ns. split; [assumption|].
  destruct t; script_cases H. now injection H as <-.
Qed.

(** X1. No run panics: no wait-group counter becomes negative (lines 102,
    103, 129, 132), and the raft goroutine never finds [ms] nil where it
    reads [ms.Topo] and calls [ms.SetRaftServer] (lines 127-128). *)
Lemma never_panics (t : tid) : ~ In (t, EPanic) (runServer env flags sched).
Proof.
  intros Hin. apply concurrent_call in Hin as (ns & _ & _ & H);
    [| simpl; tauto | discriminate].
  destruct t; script_cases H.
Qed.

(** Two calls on the critical path, the later of which was made, were made
    in the order of the path. *)
Lemma runServer_ordered (maxCounts : list Z) (x y : tid * Event) :
  Accepted env flags maxCounts ->
  before x y (criticalPath env (frameOf env flags maxCounts)) ->
  In y (st_trace (run env sched (boot (frameOf env flags maxCounts)))) ->
  before x y (runServer env flags sched).
Proof.
  intros Hacc Hxy Hin. rewrite (runServer_accepted _ _ _ _ Hacc).
  apply before_app_r. eapply ordered; eauto. apply reach_inv.
Qed.

End Calls.

(** ** How every run starts *)

Lemma tag_In (t u : tid) (e : Event) (evs : list Event) :
  In (t, e) (tag u evs) -> t = u /\ In e evs.
Proof.
  unfold tag. intros H. apply in_map_iff in H as (e' & [= <- <-] & H). auto.
Qed.

Lemma In_tag (t : tid) (e : Event) (evs : list Event) :
  In e evs -> In (t, e) (tag t evs).
Proof. intros H. unfold tag. apply in_map_iff. eauto. Qed.

Lemma tested_notGOMAXPROCS (ok : bool) (l : list string) :
  Forall notGOMAXPROCS (map (tested ok) l).
Proof. induction l; simpl; constructor; simpl; auto. Qed.

Lemma runServer_starts (env : Env) (flags : Globals) (sched : list tid) :
  exists rest,
    runServer env flags sched =
    (Main, EGOMAXPROCS (maxProcs env flags)) ::
    (Main, ETestFolderWritable (metaFolder flags)
             (FolderWritable env (metaFolder flags))) :: rest /\
    forall t n, ~ In (t, EGOMAXPROCS n) rest.
Proof.
  assert (Hno : forall evs t n,
             Forall notGOMAXPROCS evs ->
             ~ In (t, EGOMAXPROCS n) (tag Main evs)).
  { intros evs t n Hall Hin. apply tag_In in Hin as [_ Hin].
    rewrite Forall_forall in Hall. exact (Hall _ Hin). }
  destruct (accepted_or_not env flags) as [(ns & Hacc)|Hrej].
  - rewrite (runServer_accepted _ _ ns sched Hacc).
    destruct Hacc as (-> & _). unfold setupCalls, tested.
    eexists. split; [reflexivity|]. intros t n Hin.
    apply in_app_or in Hin as [Hin|Hin].
    + revert Hin. apply Hno, tested_notGOMAXPROCS.
    + eapply trace_calls in Hin; [|apply reach_inv].
      destruct t; script_cases Hin.
  - unfold runServer.
    change {| globals := flags; events := [] |} with (start flags).
    destruct (setup_spec env flags) as
      [w Hw He | w m Hw Hin Hbad He | w ns Hw Hns Hne He
      | w ns l1 f l2 Hw Hns Hlen Hsplit Hf He | w ns Hw Hns Hlen Hall Hg He].
    5: { exfalso. apply (Hrej ns). repeat split; assumption. }
    all: rewrite He, Hw; unfold tested.
    + exists (tag Main [EFatalf (MetaFolderNotWritable (metaFolder flags))]).
      split; [reflexivity|]. intros t n. apply Hno. repeat constructor.
    + exists (tag Main [EFatalf (MaxNotValidNumber m)]).
      split; [reflexivity|]. intros t n. apply Hno. repeat constructor.
    + eexists (tag Main [EFatalf (DirMaxMismatch _ _)]).
      split; [reflexivity|]. intros t n. apply Hno. repeat constructor.
    + exists (tag Main (map (tested true) l1 ++
                        [ETestFolderWritable f false;
                         EFatalf (DataFolderNotWritable f)])).
      split; [reflexivity|]. intros t n. apply Hno.
      apply Forall_app. split; [apply tested_notGOMAXPROCS|].
      repeat constructor.
Qed.

Lemma exampleFlags_accepted : Accepted exampleEnv exampleFlags [7; 9].
Proof.
  unfold Accepted. split; [reflexivity|]. split.
  - repeat constructor.
  - split; reflexivity.
Defined.

Lemma defaultFlags_accepted : Accepted exampleEnv (defaultFlags "/tmp") [7].
Proof.
  unfold Accepted. split; [reflexivity|]. split.
  - repeat constructor.
  - split; reflexivity.
Defined.

(** ** What the events say about the surroundings *)

Ltac unfold_step :=
  unfold step, stepMain, stepMaster, stepRaft, WaitGroup_Add, WaitGroup_Done,
    WaitGroup_add, WaitGroup_Wait, util_NewListener, http_Serve_returns,
    die, say, counter, with_counter;
  cbn [st_frame st_raftWaitForMaster st_volumeWait st_r st_ms st_peers
       st_raftServer st_volume_r st_pcMain st_pcMaster st_pcRaft st_exited
       st_trace with_raftWaitForMaster with_volumeWait with_r with_ms
       with_peers with_raftServer with_volume_r with_pcMain with_pcMaster
       with_pcRaft with_exited with_trace].

Ltac split_tests :=
  repeat match goal with
    | |- context [if ?c then _ else _] => destruct c eqn:?
    | |- context [match ?m with Some _ => _ | None => _ end] =>
        destruct m eqn:?
    end.

Lemma step_exited env t s : st_exited s <> None -> step env t s = s.
Proof. unfold step. destruct (st_exited s); [reflexivity|congruence]. Qed.

(** A step appends events of the stepping goroutine, each justified by the
    surroundings. *)
Lemma step_emits env t s :
  st_exited s = None ->
  exists evs,
    st_trace (step env t s) = st_trace s ++ tag t evs /\
    Forall (fun e => justified env (t, e)) evs.
Proof.
  destruct s as [fr wr wv r ms peers rs vr pm pg pr ex tr].
  cbn [st_exited st_trace]. intros ->.
  destruct t; [destruct pm | destruct pg | destruct pr];
    unfold_step; split_tests;
    unfold with_pcMain, with_pcMaster, with_pcRaft, with_trace, with_exited,
      with_raftWaitForMaster, with_volumeWait, with_r, with_ms, with_peers,
      with_raftServer, with_volume_r;
    cbn [st_frame st_raftWaitForMaster st_volumeWait st_r st_ms st_peers
       st_raftServer st_volume_r st_pcMain st_pcMaster st_pcRaft st_exited
       st_trace].
  all: first
    [ eexists; split; [reflexivity|]
    | exists []; split; [cbn [tag map]; now rewrite app_nil_r|] ].
  all: repeat constructor; cbn; auto.
Qed.

Lemma Forall_tag (P : tid * Event -> Prop) (t : tid) (evs : list Event) :
  Forall (fun e => P (t, e)) evs -> Forall P (tag t evs).
Proof. unfold tag. induction 1; simpl; constructor; auto. Qed.

Lemma run_justified env sched :
  forall s, Forall (justified env) (st_trace s) ->
            Forall (justified env) (st_trace (run env sched s)).
Proof.
  induction sched as [|t sched IH]; intros s Hs; simpl; [assumption|].
  apply IH. destruct (st_exited s) eqn:Hex.
  - rewrite step_exited by congruence. assumption.
  - destruct (step_emits env t s Hex) as (evs & -> & Hj).
    apply Forall_app. split; [assumption | now apply Forall_tag].
Qed.

(** So is every event of a run. *)
Lemma trace_justified env flags ns sched x :
  In x (st_trace (run env sched (boot (frameOf env flags ns)))) ->
  justified env x.
Proof.
  intros Hin.
  pose proof (run_justified env sched (boot (frameOf env flags ns))
                (Forall_nil _)) as Hall.
  rewrite Forall_forall in Hall. auto.
Qed.

(** * The claims *)

(** C10. [runServer] first calls [runtime.GOMAXPROCS], and never again: with
    the number of CPUs when -maxCpu is less than 1, with the value of
    -maxCpu otherwise; the default of -maxCpu is 0. *)
Theorem gomaxprocs_from_maxCpu (env : Env) (flags : Globals)
    (sched : list tid) :
  (forall tempDir, serverMaxCpu (defaultFlags tempDir) = 0) /\
  exists rest,
    runServer env flags sched =
    (Main, EGOMAXPROCS (if serverMaxCpu flags <? 1
                        then NumCPU env else serverMaxCpu flags)) :: rest /\
    forall t n, ~ In (t, EGOMAXPROCS n) rest.
Proof.
  split; [reflexivity|].
  destruct (runServer_starts env flags sched) as (rest & Heq & Hno).
  eexists. split; [exact Heq|].
  intros t n [H|H]; [discriminate H | exact (Hno t n H)].
Qed.

(** C2. When the numbers of entries of -dir and -max differ, or an entry of
    -max is not an integer, or a data folder or the meta data folder is not
    writable, every run is the same: calls of [runtime.GOMAXPROCS] and
    [util.TestFolderWritable], then [glog.Fatalf] for a configuration
    error; none of the three servers is constructed, under any schedule. *)
Theorem config_errors_fatal (env : Env) (flags : Globals) :
  List.length (strings_Split (volumeDataFolders flags) ",") <>
  List.length (strings_Split (volumeMaxDataVolumeCounts flags) ",") \/
  (exists m, In m (strings_Split (volumeMaxDataVolumeCounts flags) ",") /\
             strconv_Atoi m = None) \/
  (exists f, In f (strings_Split (volumeDataFolders flags) ",") /\
             FolderWritable env f = false) \/
  FolderWritable env (metaFolder flags) = false ->
  exists evs why,
    configError why /\ Forall setupCall evs /\
    (forall sched,
        runServer env flags sched = tag Main (evs ++ [EFatalf why])) /\
    (forall sched t e, In (t, e) (runServer env flags sched) ->
                       ~ constructs e).
Proof.
  intros Hbad.
  assert (Hrej : forall ns, ~ Accepted env flags ns).
  { intros ns (Hmeta & Hparse & Hlen & Hall).
    destruct Hbad as [Hne|[(m & Hin & Hm)|[(f & Hin & Hf)|Hm]]].
    - apply Hne. rewrite Hlen. symmetry. eapply Forall2_length, Hparse.
    - clear - Hparse Hin Hm.
      induction Hparse as [|x y l l' Hxy _ IH]; [contradiction|].
      destruct Hin as [->|Hin]; [unfold parses in Hxy; congruence | auto].
    - rewrite forallb_forall in Hall. rewrite (Hall f Hin) in Hf.
      discriminate.
    - congruence. }
  destruct (runServer_rejected env flags Hrej)
    as (evs & why & Hwhy & Hall & Heq).
  exists (EGOMAXPROCS (maxProcs env flags) :: evs), why.
  split; [assumption|]. split.
  { constructor; [exact I | now apply folderTest_setupCall]. }
  split; [exact Heq|].
  intros sched t e Hin Hc. rewrite Heq in Hin.
  apply tag_In in Hin as [_ Hin].
  change (EGOMAXPROCS (maxProcs env flags) :: evs ++ [EFatalf why])
    with ((EGOMAXPROCS (maxProcs env flags) :: evs) ++ [EFatalf why]) in Hin.
  apply in_app_or in Hin as [Hin|[<-|[]]]; [|exact Hc].
  assert (Hs : Forall setupCall (EGOMAXPROCS (maxProcs env flags) :: evs)).
  { constructor; [exact I | now apply folderTest_setupCall]. }
  rewrite Forall_forall in Hs. specialize (Hs e Hin).
  destruct e; simpl in *; contradiction.
Qed.

Lemma config_errors_fatal_witness :
  List.length (strings_Split "/data1,/data2" ",") <>
  List.length (strings_Split "7" ",") /\
  exists evs why,
    configError why /\ Forall setupCall evs /\
    (forall sched,
        runServer exampleEnv (weedServer "/data1,/data2" "7") sched =
        tag Main (evs ++ [EFatalf why])) /\
    (forall sched t e,
        In (t, e) (runServer exampleEnv (weedServer "/data1,/data2" "7") sched)
        -> ~ constructs e).
Proof.
  split; [vm_compute; lia|].
  apply (config_errors_fatal exampleEnv (weedServer "/data1,/data2" "7")).
  left. vm_compute. lia.
Defined.

(** C8. With -mdir empty, the meta data folder is the whole value of -dir:
    that string is what [util.TestFolderWritable] is first called on, as one
    path; when it is not writable every run ends there with [glog.Fatalf];
    and it is what the master server and the raft server are given. *)
Theorem metaFolder_defaults_to_dir (env : Env) (flags : Globals) :
  masterMetaFolder flags = "" ->
  (forall sched, exists rest,
      runServer env flags sched =
      (Main, EGOMAXPROCS (maxProcs env flags)) ::
      (Main, ETestFolderWritable (volumeDataFolders flags)
               (FolderWritable env (volumeDataFolders flags))) :: rest) /\
  (FolderWritable env (volumeDataFolders flags) = false ->
   forall sched,
     runServer env flags sched =
     [(Main, EGOMAXPROCS (maxProcs env flags));
      (Main, ETestFolderWritable (volumeDataFolders flags) false);
      (Main, EFatalf (MetaFolderNotWritable (volumeDataFolders flags)))]) /\
  (forall sched t m,
      In (t, ENewMasterServer m) (runServer env flags sched) ->
      ms_metaFolder m = volumeDataFolders flags) /\
  (forall sched t a,
      In (t, ENewRaftServer a) (runServer env flags sched) ->
      rs_dataDir a = volumeDataFolders flags).
Proof.
  intros Hmdir.
  assert (Hmeta : metaFolder flags = volumeDataFolders flags).
  { unfold metaFolder. now rewrite Hmdir. }
  repeat split.
  - intros sched. destruct (runServer_starts env flags sched)
      as (rest & Heq & _). rewrite Hmeta in Heq. eauto.
  - intros Hw sched. unfold runServer.
    change {| globals := flags; events := [] |} with (start flags).
    rewrite <- Hmeta in *.
    destruct (setup_spec env flags) as
      [w _ He | w m Hw' _ _ _ | w ns Hw' _ _ _
      | w ns l1 f l2 Hw' _ _ _ _ _ | w ns Hw' _ _ _ _ _]; try congruence.
    now rewrite He.
  - intros sched t m Hin.
    apply master_call in Hin as (ns & _ & _ & ->). simpl.
    now rewrite normalize_masterMetaFolder.
  - intros sched t a Hin.
    apply raft_call in Hin as (ns & _ & _ & ->). simpl.
    now rewrite normalize_masterMetaFolder.
Qed.

Lemma metaFolder_defaults_to_dir_witness :
  masterMetaFolder (weedServer "/data1,/data2" "7,9") = "" /\
  forallb (FolderWritable exampleEnv) (strings_Split "/data1,/data2" ",")
    = true /\
  forall sched,
    runServer exampleEnv (weedServer "/data1,/data2" "7,9") sched =
    [(Main, EGOMAXPROCS 4);
     (Main, ETestFolderWritable "/data1,/data2" false);
     (Main, EFatalf (MetaFolderNotWritable "/data1,/data2"))].
Proof.
  split; [reflexivity|]. split; [reflexivity|].
  apply (metaFolder_defaults_to_dir exampleEnv
           (weedServer "/data1,/data2" "7,9") eq_refl).
  reflexivity.
Defined.

(** ** Order of the calls *)

Lemma before_here {A} (x y : A) (l : list A) : In y l -> before x y (x :: l).
Proof.
  intros H. apply in_split in H as (a & b & ->). now exists [], a, b.
Qed.

Lemma before_skip {A} (x y z : A) (l : list A) :
  before x y l -> before x y (z :: l).
Proof. intros (a & b & c & ->). now exists (z :: a), b, c. Qed.

Ltac find_in := cbn [In]; repeat (first [left; reflexivity | right]).

(** [x] comes before [y] in an explicit list. *)
Ltac find_before :=
  unfold criticalPath, mainScript, masterScript, raftScript, tag;
  cbn [map firstn skipn app];
  repeat first [apply before_here; solve [find_in] | apply before_skip].

(** On the critical path, what comes later was preceded by what comes
    earlier. *)
Lemma earlier (env : Env) (fr : Frame) (sched : list tid)
    (x y : tid * Event) :
  before x y (criticalPath env fr) ->
  In y (st_trace (run env sched (boot fr))) ->
  In x (st_trace (run env sched (boot fr))).
Proof.
  intros Hxy Hin.
  destruct (ordered env fr _ x y (reach_inv env fr sched) Hxy Hin)
    as (l1 & l2 & l3 & ->).
  apply in_or_app. right. now left.
Qed.

Lemma runServer_serveLast (env : Env) (flags : Globals) (ns : list Z) :
  Accepted env flags ns ->
  ListenOk env (masterAddr flags) = true ->
  runServer env flags serveLast =
  tag Main (setupCalls env flags) ++
  tag Main (firstn 3 (mainScript env (frameOf env flags ns))) ++
  tag Master (firstn 5 (masterScript env (frameOf env flags ns))) ++
  tag Raft (raftScript env (frameOf env flags ns)) ++
  tag Main (firstn 4 (skipn 3 (mainScript env (frameOf env flags ns)))) ++
  [(Master, EServe (masterAddr flags) MasterRouter)].
Proof.
  intros Hacc Hl. rewrite (runServer_accepted _ _ ns _ Hacc).
  rewrite serveLast_trace; cbn [frameOf fr_globals];
    rewrite normalize_masterAddr; [reflexivity | assumption].
Qed.

(** C1. In every run: the raft server is constructed only after the master
    server was constructed, its listener on ip:masterPort was opened, and
    opened successfully according to the surroundings (the socket is
    bound), and [raftWaitForMaster.Done()] was called, and it is given all
    the peers of -peers; the volume server is constructed only after that
    raft server was constructed and attached to the master server with
    [SetRaftServer]. That the master goroutine has called [http.Serve] by
    then does not hold in every run, see the run after the theorem. *)
Theorem startup_order (env : Env) (flags : Globals) (sched : list tid) :
  let T := runServer env flags sched in
  (forall t a,
      In (t, ENewRaftServer a) T ->
      rs_peers a = peersOf flags /\
      ListenOk env (masterAddr flags) = true /\
      exists m timeout,
        before (Master, ENewMasterServer m)
               (Master, ENewListener (masterAddr flags) timeout true) T /\
        before (Master, ENewListener (masterAddr flags) timeout true)
               (Master, EDone raftWaitForMaster) T /\
        before (Master, EDone raftWaitForMaster) (t, ENewRaftServer a) T) /\
  (forall t v,
      In (t, ENewVolumeServer v) T ->
      exists m a,
        rs_peers a = peersOf flags /\ rs_topo a = TopoOf m /\
        before (Master, ENewMasterServer m) (Raft, ENewRaftServer a) T /\
        before (Raft, ENewRaftServer a) (Raft, ESetRaftServer m (Some a)) T /\
        before (Raft, ESetRaftServer m (Some a)) (t, ENewVolumeServer v) T).
Proof.
  intros T. subst T. split.
  - intros t a Hin.
    apply concurrent_call in Hin as (ns & Hacc & Htr & Hc);
      [| simpl; tauto | discriminate].
    destruct t; script_cases Hc. injection Hc as <-.
    split; [apply normalize_peersOf|].
    rewrite <- (normalize_masterAddr env flags).
    assert (Hd : In (Master, EDone raftWaitForMaster)
                   (st_trace (run env sched (boot (frameOf env flags ns)))))
      by (eapply earlier; [|exact Htr]; find_before).
    assert (Hl : In (Master, ENewListener (masterAddr (normalize env flags))
                       (seconds (serverTimeout (normalize env flags))) true)
                   (st_trace (run env sched (boot (frameOf env flags ns)))))
      by (eapply earlier; [|exact Hd]; find_before).
    split; [exact (trace_justified _ _ _ _ _ Hl)|].
    exists (expectedMaster env (frameOf env flags ns)),
      (seconds (serverTimeout (normalize env flags))).
    repeat split; (eapply runServer_ordered; [eassumption | | eassumption]);
      find_before.
  - intros t v Hin.
    apply concurrent_call in Hin as (ns & Hacc & Htr & Hc);
      [| simpl; tauto | discriminate].
    destruct t; script_cases Hc. injection Hc as <-.
    exists (expectedMaster env (frameOf env flags ns)),
      (expectedRaft env (frameOf env flags ns)).
    split; [apply normalize_peersOf|]. split; [reflexivity|].
    assert (Hs : In (Raft, ESetRaftServer
                             (expectedMaster env (frameOf env flags ns))
                             (Some (expectedRaft env (frameOf env flags ns))))
                   (st_trace (run env sched (boot (frameOf env flags ns)))))
      by (eapply earlier; [|exact Htr]; find_before).
    assert (Hr : In (Raft, ENewRaftServer
                             (expectedRaft env (frameOf env flags ns)))
                   (st_trace (run env sched (boot (frameOf env flags ns)))))
      by (eapply earlier; [|exact Hs]; find_before).
    repeat split; (eapply runServer_ordered; [eassumption | | eassumption]);
      find_before.
Qed.

Lemma startup_order_witness :
  let T := runServer exampleEnv exampleFlags serveLast in
  exists v m a,
    In (Main, ENewVolumeServer v) T /\
    rs_peers a = ["m1:9333"; "m2:9333"]%string /\
    before (Master, ENewMasterServer m) (Raft, ENewRaftServer a) T /\
    before (Raft, ENewRaftServer a) (Raft, ESetRaftServer m (Some a)) T /\
    before (Raft, ESetRaftServer m (Some a)) (Main, ENewVolumeServer v) T.
Proof.
  intros T.
  assert (Hin : In (Main, ENewVolumeServer
                      (expectedVolume exampleEnv
                         (frameOf exampleEnv exampleFlags [7; 9]))) T).
  { subst T.
    rewrite (runServer_serveLast _ _ _ exampleFlags_accepted eq_refl).
    apply in_or_app. right.
    unfold mainScript, masterScript, raftScript, tag.
    cbn [map firstn skipn app]. find_in. }
  destruct (startup_order exampleEnv exampleFlags serveLast) as [_ H].
  destruct (H _ _ Hin) as (m & a & Hp & _ & H1 & H2 & H3).
  exists (expectedVolume exampleEnv (frameOf exampleEnv exampleFlags [7; 9])),
    m, a.
  repeat split; assumption.
Defined.

(** A run in which the raft server and the volume server are constructed,
    and the volume server serves, while the master goroutine never gets to
    [http.Serve]: after [raftWaitForMaster.Done()] only the sleep of 100
    ms stands between the raft goroutine and [NewRaftServer]. *)
Lemma startup_order_counterexample :
  let T := runServer exampleEnv exampleFlags serveNever in
  (exists a v,
      In (Raft, ENewRaftServer a) T /\
      In (Main, ENewVolumeServer v) T /\
      In (Main, EServe (volumeAddr exampleFlags) VolumeMux) T) /\
  (forall addr r, ~ In (Master, EServe addr r) T) /\
  ~ servedBeforeRaft T.
Proof.
  intros T.
  assert (Hraft : exists a, In (Raft, ENewRaftServer a) T)
    by (eexists; vm_compute; find_in).
  assert (Hnone : forall addr r, ~ In (Master, EServe addr r) T).
  { intros addr r Hin. vm_compute in Hin.
    repeat (destruct Hin as [Hin|Hin]; [discriminate Hin|]). exact Hin. }
  split; [|split; [exact Hnone|]].
  - destruct Hraft as (a & Ha). exists a. eexists.
    split; [exact Ha|]. split; vm_compute; find_in.
  - intros H. destruct Hraft as (a & Ha).
    destruct (H Raft a Ha) as (addr & r & l1 & l2 & l3 & Heq).
    apply (Hnone addr r). rewrite Heq. apply in_or_app. right. now left.
Qed.

(** C3. Between the return of [raftWaitForMaster.Wait()] and the
    construction of the raft server the raft goroutine only sleeps 100 ms,
    and so does the main goroutine between [volumeWait.Wait()] and the
    construction of the volume server (apart from allocating its
    [ServeMux]); [raftWaitForMaster.Done()] is called before [http.Serve].
    Hence the run in which the master goroutine is not scheduled between
    the two: there the raft server, and even the volume server, is
    constructed before the master goroutine calls [http.Serve]. *)
Theorem handoff_by_sleep_only (env : Env) (flags : Globals) (ns : list Z) :
  Accepted env flags ns ->
  ListenOk env (masterAddr flags) = true ->
  (forall sched t a,
      In (t, ENewRaftServer a) (runServer env flags sched) ->
      exists rest,
        proj Raft (runServer env flags sched) =
        EWait raftWaitForMaster :: ESleep (milliseconds 100) ::
        ENewRaftServer a :: rest) /\
  (forall sched t v,
      In (t, ENewVolumeServer v) (runServer env flags sched) ->
      exists rest,
        proj Main (runServer env flags sched) =
        setupCalls env flags ++
        [EAdd raftWaitForMaster 1; EAdd volumeWait 1; EGo Master;
         EWait volumeWait; ESleep (milliseconds 100); ENewRouter VolumeMux;
         ENewVolumeServer v] ++ rest) /\
  exists sched a v,
    let T := runServer env flags sched in
    before (Master, EDone raftWaitForMaster) (Raft, ENewRaftServer a) T /\
    before (Raft, ENewRaftServer a)
           (Master, EServe (masterAddr flags) MasterRouter) T /\
    before (Main, ENewVolumeServer v)
           (Master, EServe (masterAddr flags) MasterRouter) T.
Proof.
  intros Hacc Hl. split; [|split].
  - intros sched t a Hin.
    apply concurrent_call in Hin as (ns' & Hacc' & Htr & Hc);
      [| simpl; tauto | discriminate].
    destruct t; script_cases Hc. injection Hc as <-.
    rewrite (runServer_accepted _ _ ns' sched Hacc'), proj_app.
    rewrite proj_tag_other by discriminate. cbn [app].
    apply In_proj in Htr.
    rewrite (inv_raft env _ _ (reach_inv env _ sched)) in *.
    unfold histRaft, raftScript in *.
    destruct (st_pcRaft _); cbn [callsRaft firstn] in *;
      try (script_cases Htr; fail); eexists; reflexivity.
  - intros sched t v Hin.
    apply concurrent_call in Hin as (ns' & Hacc' & Htr & Hc);
      [| simpl; tauto | discriminate].
    destruct t; script_cases Hc. injection Hc as <-.
    rewrite (runServer_accepted _ _ ns' sched Hacc'), proj_app.
    rewrite proj_tag_same. apply In_proj in Htr.
    rewrite (inv_main env _ _ (reach_inv env _ sched)) in *.
    unfold histMain, mainScript, fatalTail in *.
    destruct (st_pcMain _); cbn [callsMain rankM firstn] in *;
      destruct (st_exited _) as [[]|]; cbn [app] in *;
      try (script_cases Htr; fail); eexists; reflexivity.
  - exists serveLast, (expectedRaft env (frameOf env flags ns)),
      (expectedVolume env (frameOf env flags ns)).
    cbv zeta. rewrite (runServer_serveLast _ _ _ Hacc Hl).
    rewrite <- (normalize_masterAddr env flags).
    repeat split; apply before_app_r;
      unfold mainScript, masterScript, raftScript, tag;
      cbn [map firstn skipn app fr_globals frameOf];
      repeat first [apply before_here; solve [find_in] | apply before_skip].
Qed.

Lemma handoff_by_sleep_only_witness :
  Accepted exampleEnv exampleFlags [7; 9] /\
  ListenOk exampleEnv (masterAddr exampleFlags) = true /\
  exists sched a v,
    let T := runServer exampleEnv exampleFlags sched in
    before (Master, EDone raftWaitForMaster) (Raft, ENewRaftServer a) T /\
    before (Raft, ENewRaftServer a)
           (Master, EServe (masterAddr exampleFlags) MasterRouter) T /\
    before (Main, ENewVolumeServer v)
           (Master, EServe (masterAddr exampleFlags) MasterRouter) T.
Proof.
  split; [exact exampleFlags_accepted|]. split; [reflexivity|].
  apply (handoff_by_sleep_only exampleEnv exampleFlags [7; 9]
           exampleFlags_accepted eq_refl).
Defined.

(** ** What the constructors are given *)

(** With an accepted configuration and the master's listener open, the run
    [serveLast] constructs the three servers. *)
Lemma servers_constructed (env : Env) (flags : Globals) (ns : list Z) :
  Accepted env flags ns ->
  ListenOk env (masterAddr flags) = true ->
  let T := runServer env flags serveLast in
  In (Master, ENewMasterServer (expectedMaster env (frameOf env flags ns))) T /\
  In (Raft, ENewRaftServer (expectedRaft env (frameOf env flags ns))) T /\
  In (Main, ENewVolumeServer (expectedVolume env (frameOf env flags ns))) T.
Proof.
  intros Hacc Hl T. subst T. rewrite (runServer_serveLast _ _ _ Hacc Hl).
  repeat split; apply in_or_app; right;
    unfold mainScript, masterScript, raftScript, tag;
    cbn [map firstn skipn app]; find_in.
Qed.

Lemma Forall2_nth_error {A B} (R : A -> B -> Prop) (l : list A) (l' : list B) :
  Forall2 R l l' ->
  forall i x, nth_error l i = Some x ->
              exists y, nth_error l' i = Some y /\ R x y.
Proof.
  induction 1 as [|a b l l' Hab _ IH]; intros [|i] x Hx; simpl in *;
    try discriminate.
  - injection Hx as <-. eauto.
  - eauto.
Qed.

(** C4. The default of -pulseSeconds is 5, and whatever its value, that
    value is what the master server, the raft server and the volume server
    are constructed with. *)
Theorem pulse_shared (env : Env) (flags : Globals) :
  (forall tempDir, volumePulse (defaultFlags tempDir) = 5) /\
  (forall sched t m,
      In (t, ENewMasterServer m) (runServer env flags sched) ->
      ms_pulseSeconds m = volumePulse flags) /\
  (forall sched t v,
      In (t, ENewVolumeServer v) (runServer env flags sched) ->
      vs_pulseSeconds v = volumePulse flags) /\
  (forall sched t a,
      In (t, ENewRaftServer a) (runServer env flags sched) ->
      rs_pulseSeconds a = volumePulse flags) /\
  (forall ns,
      Accepted env flags ns -> ListenOk env (masterAddr flags) = true ->
      exists sched m v,
        In (Master, ENewMasterServer m) (runServer env flags sched) /\
        In (Main, ENewVolumeServer v) (runServer env flags sched) /\
        ms_pulseSeconds m = vs_pulseSeconds v).
Proof.
  split; [reflexivity|]. repeat split.
  - intros sched t m Hin. apply master_call in Hin as (ns & _ & _ & ->).
    apply normalize_volumePulse.
  - intros sched t v Hin. apply volume_call in Hin as (ns & _ & _ & ->).
    apply normalize_volumePulse.
  - intros sched t a Hin. apply raft_call in Hin as (ns & _ & _ & ->).
    apply normalize_volumePulse.
  - intros ns Hacc Hl.
    destruct (servers_constructed env flags ns Hacc Hl) as (Hm & _ & Hv).
    exists serveLast. eauto.
Qed.

Lemma pulse_shared_witness :
  exists sched m v,
    In (Master, ENewMasterServer m) (runServer exampleEnv exampleFlags sched) /\
    In (Main, ENewVolumeServer v) (runServer exampleEnv exampleFlags sched) /\
    ms_pulseSeconds m = vs_pulseSeconds v.
Proof.
  apply (pulse_shared exampleEnv exampleFlags) with (ns := [7; 9]).
  - exact exampleFlags_accepted.
  - reflexivity.
Defined.

(** C5. Whenever the volume server is constructed, it is given the list of
    the entries of -dir and the list of the numbers of -max, of the same
    length and entry by entry in the order of the flags; and every one of
    these folders was found writable by [util.TestFolderWritable] before. *)
Theorem folders_paired_with_maxCounts (env : Env) (flags : Globals) :
  (forall sched t v,
      In (t, ENewVolumeServer v) (runServer env flags sched) ->
      vs_folders v = strings_Split (volumeDataFolders flags) "," /\
      Forall2 parses (strings_Split (volumeMaxDataVolumeCounts flags) ",")
              (vs_maxCounts v) /\
      List.length (vs_folders v) = List.length (vs_maxCounts v) /\
      (forall i folder,
          nth_error (vs_folders v) i = Some folder ->
          exists maxString max,
            nth_error (strings_Split (volumeMaxDataVolumeCounts flags) ",") i
              = Some maxString /\
            strconv_Atoi maxString = Some max /\
            nth_error (vs_maxCounts v) i = Some max) /\
      (forall folder,
          In folder (vs_folders v) ->
          FolderWritable env folder = true /\
          before (Main, ETestFolderWritable folder true)
                 (t, ENewVolumeServer v) (runServer env flags sched))) /\
  (forall ns,
      Accepted env flags ns -> ListenOk env (masterAddr flags) = true ->
      exists sched v,
        In (Main, ENewVolumeServer v) (runServer env flags sched) /\
        vs_maxCounts v = ns).
Proof.
  split.
  - intros sched t v Hin.
    apply concurrent_call in Hin as (ns & Hacc & Htr & Hc);
      [| simpl; tauto | discriminate].
    destruct t; script_cases Hc. injection Hc as <-.
    destruct Hacc as (Hmeta & Hparse & Hlen & Hall).
    cbn [expectedVolume vs_folders vs_maxCounts frameOf fr_folders
         fr_maxCounts].
    split; [reflexivity|]. split; [assumption|]. split; [assumption|]. split.
    + intros i folder Hf.
      set (maxStrings := strings_Split (volumeMaxDataVolumeCounts flags) ",")
        in *.
      assert (Hi : (i < List.length maxStrings)%nat).
      { rewrite (Forall2_length Hparse), <- Hlen.
        apply nth_error_Some. congruence. }
      apply nth_error_Some in Hi.
      destruct (nth_error maxStrings i) as [m|] eqn:Hm; [|congruence].
      destruct (Forall2_nth_error _ _ _ Hparse i m Hm) as (n & Hn & Hmn).
      exists m, n. auto.
    + intros folder Hf. rewrite forallb_forall in Hall. split; [auto|].
      rewrite (runServer_accepted env flags ns sched)
        by (repeat split; try assumption; now apply forallb_forall).
      apply before_across; [|assumption].
      apply In_tag. unfold setupCalls. apply in_or_app. right.
      apply in_map_iff. exists folder. auto.
  - intros ns Hacc Hl.
    destruct (servers_constructed env flags ns Hacc Hl) as (_ & _ & Hv).
    exists serveLast. eauto.
Qed.

Lemma folders_paired_with_maxCounts_witness :
  exists sched v,
    In (Main, ENewVolumeServer v) (runServer exampleEnv exampleFlags sched) /\
    vs_maxCounts v = [7; 9].
Proof.
  apply (folders_paired_with_maxCounts exampleEnv exampleFlags).
  - exact exampleFlags_accepted.
  - reflexivity.
Defined.

(** C6. The package-level [serverWhiteList] being nil when [runServer]
    starts: with -whiteList empty, the master server and the volume server
    are both given the nil list; otherwise both are given the list of the
    comma-separated entries of -whiteList. *)
Theorem whiteList_shared (env : Env) (flags : Globals) :
  serverWhiteList flags = [] ->
  let whiteList :=
    if (serverWhiteListOption flags =? "")%string
    then [] else strings_Split (serverWhiteListOption flags) "," in
  (forall sched t m,
      In (t, ENewMasterServer m) (runServer env flags sched) ->
      ms_whiteList m = whiteList) /\
  (forall sched t v,
      In (t, ENewVolumeServer v) (runServer env flags sched) ->
      vs_whiteList v = whiteList) /\
  (forall ns,
      Accepted env flags ns -> ListenOk env (masterAddr flags) = true ->
      exists sched m v,
        In (Master, ENewMasterServer m) (runServer env flags sched) /\
        In (Main, ENewVolumeServer v) (runServer env flags sched) /\
        ms_whiteList m = whiteList /\ vs_whiteList v = whiteList).
Proof.
  intros Hnil whiteList.
  assert (Hwl : serverWhiteList (normalize env flags) = whiteList).
  { rewrite normalize_serverWhiteList, Hnil. reflexivity. }
  repeat split.
  - intros sched t m Hin. apply master_call in Hin as (ns & _ & _ & ->).
    exact Hwl.
  - intros sched t v Hin. apply volume_call in Hin as (ns & _ & _ & ->).
    exact Hwl.
  - intros ns Hacc Hl.
    destruct (servers_constructed env flags ns Hacc Hl) as (Hm & _ & Hv).
    exists serveLast. eauto 10.
Qed.

Lemma whiteList_shared_witness :
  serverWhiteList exampleFlags = [] /\
  (exists sched m v,
      In (Master, ENewMasterServer m)
         (runServer exampleEnv exampleFlags sched) /\
      In (Main, ENewVolumeServer v)
         (runServer exampleEnv exampleFlags sched) /\
      ms_whiteList m = ["10.0.0.1"; "10.0.0.2"]%string /\
      vs_whiteList v = ["10.0.0.1"; "10.0.0.2"]%string) /\
  (exists sched m v,
      In (Master, ENewMasterServer m)
         (runServer exampleEnv (defaultFlags "/tmp") sched) /\
      In (Main, ENewVolumeServer v)
         (runServer exampleEnv (defaultFlags "/tmp") sched) /\
      ms_whiteList m = [] /\ vs_whiteList v = []).
Proof.
  split; [reflexivity|]. split.
  - apply (whiteList_shared exampleEnv exampleFlags eq_refl)
      with (ns := [7; 9]).
    + exact exampleFlags_accepted.
    + reflexivity.
  - apply (whiteList_shared exampleEnv (defaultFlags "/tmp") eq_refl)
      with (ns := [7]).
    + exact defaultFlags_accepted.
    + reflexivity.
Defined.

(** C9. With -publicUrl empty, the public URL the volume server is given is
    the value of -ip, a colon and the decimal value of -port; with no flag
    set that is localhost:8080. *)
Theorem publicUrl_defaults_to_ip_port (env : Env) (flags : Globals) :
  volumePublicUrl flags = "" ->
  (forall sched t v,
      In (t, ENewVolumeServer v) (runServer env flags sched) ->
      vs_publicUrl v =
      (serverIp flags ++ ":" ++ strconv_Itoa (volumePort flags))%string) /\
  (forall ns,
      Accepted env flags ns -> ListenOk env (masterAddr flags) = true ->
      exists sched v,
        In (Main, ENewVolumeServer v) (runServer env flags sched) /\
        vs_publicUrl v =
        (serverIp flags ++ ":" ++ strconv_Itoa (volumePort flags))%string) /\
  (forall tempDir,
      volumePublicUrl (defaultFlags tempDir) = "" /\
      (serverIp (defaultFlags tempDir) ++ ":" ++
       strconv_Itoa (volumePort (defaultFlags tempDir)))%string
      = "localhost:8080").
Proof.
  intros Hurl.
  assert (Hp : volumePublicUrl (normalize env flags) =
               (serverIp flags ++ ":" ++
                strconv_Itoa (volumePort flags))%string).
  { rewrite normalize_volumePublicUrl, Hurl. reflexivity. }
  repeat split.
  - intros sched t v Hin. apply volume_call in Hin as (ns & _ & _ & ->).
    exact Hp.
  - intros ns Hacc Hl.
    destruct (servers_constructed env flags ns Hacc Hl) as (_ & _ & Hv).
    exists serveLast. eauto.
Qed.

Lemma publicUrl_defaults_to_ip_port_witness :
  volumePublicUrl (defaultFlags "/tmp") = "" /\
  exists sched v,
    In (Main, ENewVolumeServer v)
       (runServer exampleEnv (defaultFlags "/tmp") sched) /\
    vs_publicUrl v = "localhost:8080".
Proof.
  split; [reflexivity|].
  apply (publicUrl_defaults_to_ip_port exampleEnv (defaultFlags "/tmp")
           eq_refl) with (ns := [7]).
  - exact defaultFlags_accepted.
  - reflexivity.
Defined.

(** ** The raft server is constructed at most once *)

Lemma filter_filter_sub {A} (p q : A -> bool) (l : list A) :
  (forall x, p x = true -> q x = true) ->
  filter p (filter q l) = filter p l.
Proof.
  intros Hsub. induction l as [|x l IH]; simpl; [reflexivity|].
  destruct (q x) eqn:Hq; simpl.
  - now rewrite IH.
  - destruct (p x) eqn:Hp; [|exact IH].
    rewrite (Hsub x Hp) in Hq. discriminate.
Qed.

Lemma filter_firstn_length {A} (p : A -> bool) (n : nat) (l : list A) :
  (List.length (filter p (firstn n l)) <= List.length (filter p l))%nat.
Proof.
  rewrite <- (firstn_skipn n l) at 2. rewrite filter_app, length_app. lia.
Qed.

Lemma filter_tag_none (t : tid) (evs : list Event) :
  (forall a, ~ In (ENewRaftServer a) evs) ->
  filter isNewRaftServer (tag t evs) = [].
Proof.
  induction evs as [|e evs IH]; intros Hno; simpl; [reflexivity|].
  rewrite IH by (intros a H; apply (Hno a); now right).
  destruct e; try reflexivity. destruct (Hno a). now left.
Qed.

Lemma raft_constructed_once (env : Env) (flags : Globals) (sched : list tid) :
  (List.length (filter isNewRaftServer (runServer env flags sched)) <= 1)%nat.
Proof.
  destruct (accepted_or_not env flags) as [(ns & Hacc)|Hrej].
  - rewrite (runServer_accepted _ _ ns sched Hacc), filter_app, length_app.
    rewrite filter_tag_none.
    2: { intros a Hin. unfold setupCalls in Hin.
         apply in_app_or in Hin as [[H|[H|[]]]|Hin]; try discriminate H.
         apply in_map_iff in Hin as (f & H & _). discriminate H. }
    rewrite <- (filter_filter_sub isNewRaftServer
                  (fun x => negb (floating x))).
    2: { intros [t []]; simpl; try discriminate; now destruct t. }
    fold (onPath (st_trace (run env sched (boot (frameOf env flags ns))))).
    rewrite (inv_path env _ _ (reach_inv env _ sched)).
    etransitivity; [apply filter_firstn_length|]. reflexivity.
  - destruct (runServer_rejected env flags Hrej)
      as (evs & why & _ & Hall & Heq).
    rewrite Heq, filter_tag_none; [simpl; lia|].
    intros a [H|Hin]; [discriminate H|].
    apply in_app_or in Hin as [Hin|[H|[]]]; [|discriminate H].
    rewrite Forall_forall in Hall. exact (Hall _ Hin).
Qed.

(** C7. In every run the raft server is constructed at most once; it is
    given the comma-separated entries of -peers (no peer when -peers is
    empty), the address ip:masterPort and the router the master server was
    constructed with; the master's listener was opened on that address, and
    [http.Serve] of the master goroutine is called on that address with
    that router. Nothing in the concurrent part assigns -peers. *)
Theorem peers_fixed_at_startup (env : Env) (flags : Globals) :
  (forall sched t a,
      In (t, ENewRaftServer a) (runServer env flags sched) ->
      rs_peers a = (if (serverPeers flags =? "")%string
                    then [] else strings_Split (serverPeers flags) ",") /\
      rs_httpAddr a =
        (serverIp flags ++ ":" ++ strconv_Itoa (masterPort flags))%string /\
      exists m timeout,
        In (Master, ENewMasterServer m) (runServer env flags sched) /\
        rs_r a = ms_r m /\ ms_port m = masterPort flags /\
        In (Master, ENewListener (rs_httpAddr a) timeout true)
           (runServer env flags sched)) /\
  (forall sched addr r t m,
      In (Master, EServe addr r) (runServer env flags sched) ->
      In (t, ENewMasterServer m) (runServer env flags sched) ->
      addr = (serverIp flags ++ ":" ++ strconv_Itoa (masterPort flags))%string
      /\ r = ms_r m) /\
  (forall sched,
      (List.length (filter isNewRaftServer (runServer env flags sched))
       <= 1)%nat) /\
  (forall sched ns,
      serverPeers
        (fr_globals (st_frame (run env sched (boot (frameOf env flags ns)))))
      = serverPeers flags) /\
  (forall ns,
      Accepted env flags ns -> ListenOk env (masterAddr flags) = true ->
      exists sched a,
        In (Raft, ENewRaftServer a) (runServer env flags sched)).
Proof.
  split; [|split; [|split; [|split]]].
  - intros sched t a Hin.
    apply concurrent_call in Hin as (ns & Hacc & Htr & Hc);
      [| simpl; tauto | discriminate].
    destruct t; script_cases Hc. injection Hc as <-.
    cbn [expectedRaft rs_peers rs_httpAddr rs_r frameOf fr_globals].
    split.
    { rewrite normalize_peersOf. unfold peersOf.
      now destruct (serverPeers flags =? "")%string. }
    split; [apply normalize_masterAddr|].
    exists (expectedMaster env (frameOf env flags ns)),
      (seconds (serverTimeout (normalize env flags))).
    rewrite (runServer_accepted _ _ ns sched Hacc).
    split; [|split; [|split]].
    + apply in_or_app. right. eapply earlier; [|exact Htr]. find_before.
    + reflexivity.
    + apply normalize_masterPort.
    + apply in_or_app. right. eapply earlier; [|exact Htr]. find_before.
  - intros sched addr r t m Hs Hm.
    apply master_call in Hm as (ns & _ & _ & ->).
    apply concurrent_call in Hs as (ns' & _ & _ & Hc);
      [| simpl; tauto | discriminate].
    script_cases Hc. injection Hc as <- <-.
    cbn [frameOf fr_globals]. split; [apply normalize_masterAddr|reflexivity].
  - intros sched. apply raft_constructed_once.
  - intros sched ns.
    rewrite (inv_frame env _ _ (reach_inv env (frameOf env flags ns) sched)).
    apply normalize_serverPeers.
  - intros ns Hacc Hl.
    destruct (servers_constructed env flags ns Hacc Hl) as (_ & Hr & _).
    exists serveLast. eauto.
Qed.

Lemma peers_fixed_at_startup_witness :
  exists sched a,
    In (Raft, ENewRaftServer a) (runServer exampleEnv exampleFlags sched) /\
    rs_peers a = ["m1:9333"; "m2:9333"]%string /\
    rs_httpAddr a = "localhost:9333".
Proof.
  destruct (peers_fixed_at_startup exampleEnv exampleFlags)
    as (Hargs & _ & _ & _ & Hex).
  destruct (Hex [7; 9] exampleFlags_accepted eq_refl) as (sched & a & Hin).
  destruct (Hargs sched Raft a Hin) as (Hp & Ha & _).
  exists sched, a. repeat split; assumption.
Defined.

(** * Further properties of [runServer] *)

(** X2. With an accepted configuration, both listeners opening and neither
    [http.Serve] returning, no run calls [glog.Fatalf]: the error branches
    of lines 116-118, 133-135, 150-152 and 153-155 are the only ways out
    once the prefix is passed. *)
Theorem healthy_never_exits (env : Env) (flags : Globals) (ns : list Z) :
  Accepted env flags ns ->
  ListenOk env (masterAddr flags) = true ->
  ListenOk env (volumeAddr flags) = true ->
  ServeReturns env (masterAddr flags) = false ->
  ServeReturns env (volumeAddr flags) = false ->
  forall sched t why, ~ In (t, EFatalf why) (runServer env flags sched).
Proof.
  intros Hacc Hlm Hlv Hsm Hsv sched t why Hin.
  rewrite (runServer_accepted _ _ ns sched Hacc) in Hin.
  apply in_app_or in Hin as [Hin|Hin].
  - apply tag_In in Hin as [_ Hin]. unfold setupCalls in Hin.
    apply in_app_or in Hin as [[H|[H|[]]]|Hin]; try discriminate H.
    apply in_map_iff in Hin as (f & H & _). discriminate H.
  - assert (Hj : justified env (t, EFatalf why)).
    { pose proof (run_justified env sched (boot (frameOf env flags ns))
                    (Forall_nil _)) as Hall.
      rewrite Forall_forall in Hall. exact (Hall _ Hin). }
    eapply trace_calls in Hin; [|apply reach_inv].
    destruct t; script_cases Hin; injection Hin as <-; cbn in Hj;
      rewrite ?normalize_masterAddr in Hj;
      unfold volumeAddr in Hj;
      rewrite ?normalize_serverIp, ?normalize_volumePort in Hj;
      fold (volumeAddr flags) in Hj; congruence.
Qed.

(** ** Runs can be completed *)
Lemma run_app env a b s : run env (a ++ b) s = run env b (run env a s).
Proof. unfold run. apply fold_left_app. Qed.

Ltac crunch_state :=
  cbn -[seconds milliseconds masterAddr volumeAddr peersOf strings_Split
        expectedMaster expectedRaft expectedVolume mainScript masterScript
        raftScript firstn proj tag onPath criticalPath run completion]
    in *.

Ltac find_app :=
  first [ apply in_or_app; right;
          solve [cbn [tag map In]; repeat first [left; reflexivity | right]]
        | apply in_or_app; left; find_app ].

(** From every reachable state that has not exited, [completion] leads to
    the volume server's construction, or to an exit. *)
Lemma can_complete (env : Env) (fr : Frame) (s : State) :
  Inv env fr s -> st_exited s = None ->
  ListenOk env (masterAddr (fr_globals fr)) = true ->
  exists v,
    In (Main, ENewVolumeServer v) (st_trace (run env (completion s) s)).
Proof.
  intros [Hfr Hms Hrs Hrw Hmw Hwr Hwv Hr Hm Hp Hrf Hvr Hex Htm Htg Htr Hpath]
    Hnone Hl.
  unfold histMain, histMaster, histRaft, progress in *.
  destruct s as [fr' wr wv r ms peers rs vr pm pg pr ex tr].
  cbn [st_frame st_raftWaitForMaster st_volumeWait st_r st_ms st_peers
       st_raftServer st_volume_r st_pcMain st_pcMaster st_pcRaft st_exited
       st_trace] in *.
  subst fr' ex. rewrite app_nil_r in Htm.
  destruct pm, pg; crunch_state; try (exfalso; lia);
    destruct pr; crunch_state; try (exfalso; lia);
    subst wr wv r ms peers rs vr; unfold completion;
    cbn [repeat app Nat.sub Nat.max rankM rankG rankR st_pcMain st_pcMaster
         st_pcRaft].
  all: repeat (rewrite run_cons; eval_step; rewrite ?Hl).
  all: cbn [run fold_left st_trace].
  all: try (exists (expectedVolume env fr); apply In_proj; rewrite Htm;
            unfold mainScript; cbn [firstn In];
            solve [repeat first [left; reflexivity | right]]).
  all: eexists; find_app.
Qed.

Lemma exited_fatal (env : Env) (fr : Frame) (s : State) (t : tid) :
  Inv env fr s -> st_exited s = Some t ->
  exists why, In (t, EFatalf why) (st_trace s).
Proof.
  intros Hs Hex. pose proof (inv_exited env fr s Hs) as He.
  rewrite Hex in He. destruct t; [| |contradiction].
  - pose proof (inv_main env fr s Hs) as Hm. unfold histMain in Hm.
    rewrite Hex in Hm. unfold fatalTail in Hm.
    destruct He as [He|He]; rewrite He in Hm; eexists; apply In_proj;
      rewrite Hm; apply in_or_app; right; cbn [In]; eauto.
  - pose proof (inv_master env fr s Hs) as Hm. unfold histMaster in Hm.
    rewrite Hex in Hm. unfold fatalTail in Hm.
    destruct He as [He|He]; rewrite He in Hm; eexists; apply In_proj;
      rewrite Hm; apply in_or_app; right; cbn [In]; eauto.
Qed.

(** X5. The two wait groups do not deadlock: with an accepted configuration
    and the master listener opening, every run that has not ended in
    [glog.Fatalf] can be continued, from wherever the three goroutines are,
    to a run in which the volume server is constructed. *)
Theorem can_always_complete (env : Env) (flags : Globals) (ns : list Z) :
  Accepted env flags ns ->
  ListenOk env (masterAddr flags) = true ->
  forall sched,
    (forall t why, ~ In (t, EFatalf why) (runServer env flags sched)) ->
    exists more v,
      In (Main, ENewVolumeServer v) (runServer env flags (sched ++ more)).
Proof.
  intros Hacc Hl sched Hno.
  set (fr := frameOf env flags ns).
  set (s := run env sched (boot fr)).
  assert (Hs : Inv env fr s) by apply reach_inv.
  assert (Hex : st_exited s = None).
  { destruct (st_exited s) as [t|] eqn:Hex; [|reflexivity].
    destruct (exited_fatal env fr s t Hs Hex) as (why & Hin).
    destruct (Hno t why).
    rewrite (runServer_accepted _ _ ns sched Hacc).
    apply in_or_app. now right. }
  destruct (can_complete env fr s Hs Hex) as (v & Hv).
  { cbn [fr frameOf fr_globals]. now rewrite normalize_masterAddr. }
  exists (completion s), v.
  rewrite (runServer_accepted _ _ ns _ Hacc), run_app.
  apply in_or_app. now right.
Qed.

Lemma snoc_two {A} (l m : list A) (a b : A) :
  l ++ m ++ [a; b] = (l ++ m ++ [a]) ++ [b].
Proof. now rewrite <- !app_assoc. Qed.

(** X3. When the master's listener cannot be opened (lines 112-118), no run
    constructs the raft server or the volume server, or calls [http.Serve]:
    the failing check comes before the raft goroutine is started (line 120)
    and before [raftWaitForMaster.Done] (line 132), and main waits for the
    raft goroutine. And the failure is reported: some run ends with the
    master goroutine's [glog.Fatalf] on ip:masterPort. *)
Theorem master_listener_failure (env : Env) (flags : Globals) (ns : list Z) :
  Accepted env flags ns ->
  ListenOk env (masterAddr flags) = false ->
  (forall sched t,
      (forall a, ~ In (t, ENewRaftServer a) (runServer env flags sched)) /\
      (forall v, ~ In (t, ENewVolumeServer v) (runServer env flags sched)) /\
      (forall addr r, ~ In (t, EServe addr r) (runServer env flags sched))) /\
  exists sched pre,
    runServer env flags sched =
    pre ++ [(Master, EFatalf (ListenFailed (masterAddr flags)))].
Proof.
  intros Hacc Hl.
  assert (Hnever : forall sched,
             ~ In (Master, EDone raftWaitForMaster)
                  (st_trace (run env sched (boot (frameOf env flags ns))))).
  { intros sched Hin.
    assert (Hlis : In (Master,
                       ENewListener (masterAddr (normalize env flags))
                         (seconds (serverTimeout (normalize env flags))) true)
                      (st_trace (run env sched (boot (frameOf env flags ns)))))
      by (eapply earlier; [|exact Hin]; find_before).
    pose proof (run_justified env sched (boot (frameOf env flags ns))
                  (Forall_nil _)) as Hall.
    rewrite Forall_forall in Hall. specialize (Hall _ Hlis). cbn in Hall.
    rewrite normalize_masterAddr in Hall. congruence. }
  split.
  - intros sched t. repeat split.
    + intros a Hin.
      apply concurrent_call in Hin as (ns' & Hacc' & Htr & Hc);
        [| simpl; tauto | discriminate].
      rewrite <- (parses_unique _ _ _
                    (proj1 (proj2 Hacc)) (proj1 (proj2 Hacc'))) in *.
      destruct t; script_cases Hc. injection Hc as <-.
      apply (Hnever sched). eapply earlier; [|exact Htr]. find_before.
    + intros v Hin.
      apply concurrent_call in Hin as (ns' & Hacc' & Htr & Hc);
        [| simpl; tauto | discriminate].
      rewrite <- (parses_unique _ _ _
                    (proj1 (proj2 Hacc)) (proj1 (proj2 Hacc'))) in *.
      destruct t; script_cases Hc. injection Hc as <-.
      apply (Hnever sched). eapply earlier; [|exact Htr]. find_before.
    + intros addr r Hin.
      apply concurrent_call in Hin as (ns' & Hacc' & Htr & Hc);
        [| simpl; tauto | discriminate].
      rewrite <- (parses_unique _ _ _
                    (proj1 (proj2 Hacc)) (proj1 (proj2 Hacc'))) in *.
      destruct t; script_cases Hc; injection Hc as <- <-.
      * apply (Hnever sched). eapply earlier; [|exact Htr]. find_before.
      * apply In_proj in Htr.
        pose proof (reach_inv env (frameOf env flags ns) sched) as Hs.
        rewrite (inv_master _ _ _ Hs) in Htr.
        apply (Hnever sched), In_proj. rewrite (inv_master _ _ _ Hs).
        unfold histMaster, masterScript, fatalTail in *.
        destruct (st_pcMaster _); cbn [callsMaster rankG Nat.pred firstn] in *;
          destruct (st_exited _) as [[]|]; cbn [app In] in *;
          repeat match type of Htr with
            | _ \/ _ => destruct Htr as [Htr|Htr]
            | False => contradiction
            end; try discriminate Htr; tauto.
  - exists listenFails.
    rewrite (runServer_accepted _ _ ns _ Hacc).
    assert (Hl' : ListenOk env (masterAddr (fr_globals (frameOf env flags ns)))
                  = false).
    { cbn [frameOf fr_globals]. now rewrite normalize_masterAddr. }
    unfold listenFails. cbv [repeat app boot].
    repeat (rewrite run_cons; eval_step; rewrite ?Hl').
    cbn [run fold_left st_trace tag map].
    cbn [frameOf fr_globals]. rewrite normalize_masterAddr.
    eexists. apply snoc_two.
Qed.

(** ** Listeners and servers *)
Lemma normalize_serverTimeout env g :
  serverTimeout (normalize env g) = serverTimeout g.
Proof. normalize_cases. Qed.

Lemma normalize_serverDataCenter env g :
  serverDataCenter (normalize env g) = serverDataCenter g.
Proof. normalize_cases. Qed.

Lemma normalize_serverRack env g :
  serverRack (normalize env g) = serverRack g.
Proof. normalize_cases. Qed.

Lemma normalize_volumeAddr env g : volumeAddr (normalize env g) = volumeAddr g.
Proof.
  unfold volumeAddr. now rewrite normalize_serverIp, normalize_volumePort.
Qed.

(** X6. [util.NewListener] is only ever called by the master goroutine on
    ip:masterPort (lines 112-115) and by main on ip:port (lines 146-149),
    both with the timeout of -idleTimeout seconds; the recorded result is
    the surroundings' answer for that address. *)
Theorem listeners_opened (env : Env) (flags : Globals) (sched : list tid)
    (t : tid) (addr : string) (timeout : Z) (ok : bool) :
  In (t, ENewListener addr timeout ok) (runServer env flags sched) ->
  timeout = seconds (serverTimeout flags) /\
  ListenOk env addr = ok /\
  ((t = Master /\
    addr = (serverIp flags ++ ":" ++ strconv_Itoa (masterPort flags))%string)
   \/
   (t = Main /\
    addr = (serverIp flags ++ ":" ++ strconv_Itoa (volumePort flags))%string)).
Proof.
  intros Hin.
  apply concurrent_call in Hin as (ns & Hacc & Htr & Hc);
    [| simpl; tauto | discriminate].
  apply trace_justified in Htr. cbn in Htr.
  split; [|split; [assumption|]].
  - destruct t; script_cases Hc; injection Hc as <- <- <-;
      cbn [frameOf fr_globals]; now rewrite normalize_serverTimeout.
  - destruct t; script_cases Hc; injection Hc as <- <- <-;
      cbn [frameOf fr_globals];
      rewrite ?normalize_masterAddr, ?normalize_volumeAddr; auto.
Qed.

Lemma before_map_snd (t : tid) (e1 e2 : Event) (l : list (tid * Event)) :
  (forall x, In x l -> fst x = t) ->
  before e1 e2 (map snd l) -> before (t, e1) (t, e2) l.
Proof.
  intros Hfst (l1 & l2 & l3 & H).
  apply map_eq_app in H as (a & b & -> & _ & H).
  apply map_eq_cons in H as ([t1 x1] & c & -> & Hx1 & H).
  apply map_eq_app in H as (d & e & -> & _ & H).
  apply map_eq_cons in H as ([t2 x2] & f & -> & Hx2 & _).
  simpl in Hx1, Hx2. subst x1 x2.
  assert (Ht1 : t1 = t).
  { apply (Hfst (t1, e1)). apply in_or_app. right. now left. }
  assert (Ht2 : t2 = t).
  { apply (Hfst (t2, e2)). apply in_or_app. right. right.
    apply in_or_app. right. now left. }
  subst. now exists a, d, f.
Qed.

Lemma before_proj (t : tid) (e1 e2 : Event) (tr : list (tid * Event)) :
  before e1 e2 (proj t tr) -> before (t, e1) (t, e2) tr.
Proof.
  intros H. apply (before_filter (fun x => tid_eqb (fst x) t)).
  apply before_map_snd; [|exact H].
  intros [u e] Hin. apply filter_In in Hin as [_ Hu]. simpl in *.
  now destruct u, t.
Qed.

(** X7. [http.Serve] is only called on an address whose listener was
    opened successfully, earlier in the run, by the same goroutine (lines
    112-133 and 146-153). *)
Theorem serve_after_listen (env : Env) (flags : Globals) (sched : list tid)
    (t : tid) (addr : string) (r : Router) :
  In (t, EServe addr r) (runServer env flags sched) ->
  ListenOk env addr = true /\
  exists timeout,
    before (t, ENewListener addr timeout true) (t, EServe addr r)
           (runServer env flags sched).
Proof.
  intros Hin.
  apply concurrent_call in Hin as (ns & Hacc & Htr & _);
    [| simpl; tauto | discriminate].
  assert (Hb : exists timeout,
             before (t, ENewListener addr timeout true) (t, EServe addr r)
               (st_trace (run env sched (boot (frameOf env flags ns))))).
  { pose proof (reach_inv env (frameOf env flags ns) sched) as Hs.
    apply In_proj in Htr. destruct t.
    - rewrite (inv_main _ _ _ Hs) in Htr.
      unfold histMain, mainScript, fatalTail in Htr.
      eexists. apply before_proj. rewrite (inv_main _ _ _ Hs).
      unfold histMain, mainScript, fatalTail.
      destruct (st_pcMain _); cbn [callsMain rankM firstn] in *;
        destruct (st_exited _) as [[]|]; cbn [app In] in *;
        repeat match type of Htr with
          | _ \/ _ => destruct Htr as [Htr|Htr]
          | False => contradiction
          end; try discriminate Htr; injection Htr as <- <-;
        repeat first [apply before_here; solve [find_in] | apply before_skip].
    - rewrite (inv_master _ _ _ Hs) in Htr.
      unfold histMaster, masterScript, fatalTail in Htr.
      eexists. apply before_proj. rewrite (inv_master _ _ _ Hs).
      unfold histMaster, masterScript, fatalTail.
      destruct (st_pcMaster _); cbn [callsMaster rankG Nat.pred firstn] in *;
        destruct (st_exited _) as [[]|]; cbn [app In] in *;
        repeat match type of Htr with
          | _ \/ _ => destruct Htr as [Htr|Htr]
          | False => contradiction
          end; try discriminate Htr; injection Htr as <- <-;
        repeat first [apply before_here; solve [find_in] | apply before_skip].
    - rewrite (inv_raft _ _ _ Hs) in Htr.
      unfold histRaft, raftScript in Htr.
      destruct (st_pcRaft _); cbn [callsRaft firstn In] in Htr;
        repeat match type of Htr with
          | _ \/ _ => destruct Htr as [Htr|Htr]
          | False => contradiction
          end; discriminate Htr. }
  destruct Hb as (timeout & Hb). split.
  - destruct Hb as (l1 & l2 & l3 & Heq).
    assert (Hl : In (t, ENewListener addr timeout true)
                   (st_trace (run env sched (boot (frameOf env flags ns))))).
    { rewrite Heq. apply in_or_app. right. now left. }
    apply trace_justified in Hl. exact Hl.
  - exists timeout. rewrite (runServer_accepted _ _ ns sched Hacc).
    now apply before_app_r.
Qed.

(** X8. The volume server is pointed at this process's own master: its
    master node is ip:masterPort (line 142), the address the master
    goroutine has opened its listener on earlier in the run; its ip, port,
    data center and rack are the flags' values unchanged. *)
Theorem volume_points_at_master (env : Env) (flags : Globals)
    (sched : list tid) (t : tid) (v : VolumeServerArgs) :
  In (t, ENewVolumeServer v) (runServer env flags sched) ->
  vs_masterNode v =
    (serverIp flags ++ ":" ++ strconv_Itoa (masterPort flags))%string /\
  vs_ip v = serverIp flags /\ vs_port v = volumePort flags /\
  vs_dataCenter v = serverDataCenter flags /\ vs_rack v = serverRack flags /\
  ListenOk env (vs_masterNode v) = true /\
  exists timeout,
    before (Master, ENewListener (vs_masterNode v) timeout true)
           (t, ENewVolumeServer v) (runServer env flags sched).
Proof.
  intros Hin.
  apply concurrent_call in Hin as (ns & Hacc & Htr & Hc);
    [| simpl; tauto | discriminate].
  destruct t; script_cases Hc. injection Hc as <-.
  cbn [expectedVolume vs_masterNode vs_ip vs_port vs_dataCenter vs_rack
       frameOf fr_globals].
  assert (Hl : In (Master, ENewListener (masterAddr (normalize env flags))
                     (seconds (serverTimeout (normalize env flags))) true)
                 (st_trace (run env sched (boot (frameOf env flags ns)))))
    by (eapply earlier; [|exact Htr]; find_before).
  split; [apply normalize_masterAddr|].
  split; [apply normalize_serverIp|].
  split; [apply normalize_volumePort|].
  split; [apply normalize_serverDataCenter|].
  split; [apply normalize_serverRack|].
  split; [exact (trace_justified _ _ _ _ _ Hl)|].
  eexists. eapply runServer_ordered; [eassumption | | eassumption].
  find_before.
Qed.

(** X9. With -mdir not empty, -mdir itself is the meta data folder, whatever
    -dir is: it is the path tested first, the one the fatal message names
    when it is not writable, and the one the master server and the raft
    server are given (lines 66-71, 107, 127). *)
Theorem explicit_mdir_used (env : Env) (flags : Globals) :
  masterMetaFolder flags <> "" ->
  (forall sched, exists rest,
      runServer env flags sched =
      (Main, EGOMAXPROCS (maxProcs env flags)) ::
      (Main, ETestFolderWritable (masterMetaFolder flags)
               (FolderWritable env (masterMetaFolder flags))) :: rest) /\
  (FolderWritable env (masterMetaFolder flags) = false ->
   forall sched,
     runServer env flags sched =
     [(Main, EGOMAXPROCS (maxProcs env flags));
      (Main, ETestFolderWritable (masterMetaFolder flags) false);
      (Main, EFatalf (MetaFolderNotWritable (masterMetaFolder flags)))]) /\
  (forall sched t m,
      In (t, ENewMasterServer m) (runServer env flags sched) ->
      ms_metaFolder m = masterMetaFolder flags) /\
  (forall sched t a,
      In (t, ENewRaftServer a) (runServer env flags sched) ->
      rs_dataDir a = masterMetaFolder flags).
Proof.
  intros Hmdir. apply String.eqb_neq in Hmdir.
  assert (Hmeta : metaFolder flags = masterMetaFolder flags).
  { unfold metaFolder. now rewrite Hmdir. }
  repeat split.
  - intros sched. destruct (runServer_starts env flags sched)
      as (rest & Heq & _). rewrite Hmeta in Heq. eauto.
  - intros Hw sched. unfold runServer.
    change {| globals := flags; events := [] |} with (start flags).
    rewrite <- Hmeta in *.
    destruct (setup_spec env flags) as
      [w _ He | w m Hw' _ _ _ | w ns Hw' _ _ _
      | w ns l1 f l2 Hw' _ _ _ _ _ | w ns Hw' _ _ _ _ _]; try congruence.
    now rewrite He.
  - intros sched t m Hin.
    apply master_call in Hin as (ns & _ & _ & ->). simpl.
    now rewrite normalize_masterMetaFolder.
  - intros sched t a Hin.
    apply raft_call in Hin as (ns & _ & _ & ->). simpl.
    now rewrite normalize_masterMetaFolder.
Qed.

(** X10. With -publicUrl not empty, the volume server is given it unchanged
    (lines 92-94, 141). *)
Theorem explicit_publicUrl_used (env : Env) (flags : Globals)
    (sched : list tid) (t : tid) (v : VolumeServerArgs) :
  volumePublicUrl flags <> "" ->
  In (t, ENewVolumeServer v) (runServer env flags sched) ->
  vs_publicUrl v = volumePublicUrl flags.
Proof.
  intros Hurl Hin. apply String.eqb_neq in Hurl.
  apply volume_call in Hin as (ns & _ & _ & ->). simpl.
  now rewrite normalize_volumePublicUrl, Hurl.
Qed.

(** ** Constructed at most once *)
Lemma filter_tag_nil (p : tid * Event -> bool) (t : tid) (evs : list Event) :
  (forall e, In e evs -> p (t, e) = false) -> filter p (tag t evs) = [].
Proof.
  induction evs as [|e evs IH]; intros Hno; simpl; [reflexivity|].
  rewrite (Hno e) by now left. apply IH. intros e' H. apply Hno. now right.
Qed.

Lemma on_path_at_most (p : tid * Event -> bool) (n : nat) env flags sched :
  (forall x, p x = true -> floating x = false) ->
  (forall e, setupCall e -> p (Main, e) = false) ->
  (forall why, p (Main, EFatalf why) = false) ->
  (forall ns,
      List.length (filter p (criticalPath env (frameOf env flags ns)))
      <= n)%nat ->
  (List.length (filter p (runServer env flags sched)) <= n)%nat.
Proof.
  intros Hpath Hsetup Hfatal Hn.
  destruct (accepted_or_not env flags) as [(ns & Hacc)|Hrej].
  - rewrite (runServer_accepted _ _ ns sched Hacc), filter_app, length_app.
    rewrite filter_tag_nil.
    2: { intros e Hin. apply Hsetup. unfold setupCalls in Hin.
         apply in_app_or in Hin as [[<-|[<-|[]]]|Hin]; try exact I.
         apply in_map_iff in Hin as (f & <- & _). exact I. }
    rewrite <- (filter_filter_sub p (fun x => negb (floating x))).
    2: { intros x Hx. now rewrite (Hpath x Hx). }
    fold (onPath (st_trace (run env sched (boot (frameOf env flags ns))))).
    rewrite (inv_path env _ _ (reach_inv env _ sched)).
    etransitivity; [apply filter_firstn_length|]. apply Hn.
  - destruct (runServer_rejected env flags Hrej)
      as (evs & why & _ & Hall & Heq).
    rewrite Heq, filter_tag_nil; [simpl; lia|].
    intros e [<-|Hin]; [now apply Hsetup|].
    apply in_app_or in Hin as [Hin|[<-|[]]]; [|apply Hfatal].
    apply Hsetup. apply folderTest_setupCall in Hall.
    rewrite Forall_forall in Hall. auto.
Qed.

(** X14. No run constructs the master server twice, nor the volume server
    twice. *)
Theorem master_and_volume_constructed_once (env : Env) (flags : Globals)
    (sched : list tid) :
  (List.length (filter isNewMasterServer (runServer env flags sched))
   <= 1)%nat /\
  (List.length (filter isNewVolumeServer (runServer env flags sched))
   <= 1)%nat.
Proof.
  split; apply on_path_at_most.
  all: try (intros [t []]; simpl; try discriminate; now destruct t).
  all: try (intros []; simpl; tauto).
  all: try reflexivity.
  all: intros ns; reflexivity.
Qed.

(** ** [strings.Split] on commas and [strconv.Atoi] *)
Lemma append_nil_r (s : string) : (s ++ "")%string = s.
Proof. induction s; simpl; congruence. Qed.

Lemma append_assoc (a b c : string) :
  ((a ++ b) ++ c)%string = (a ++ b ++ c)%string.
Proof. induction a; simpl; congruence. Qed.

Lemma list_ascii_of_string_app (a b : string) :
  list_ascii_of_string (a ++ b) =
  list_ascii_of_string a ++ list_ascii_of_string b.
Proof. induction a; simpl; congruence. Qed.

Lemma split_from_nonempty (sep : string) (s : string) :
  forall skip cur, split_from sep skip cur s <> [].
Proof.
  induction s as [|c s IH]; intros skip cur; cbn [split_from];
    [discriminate|].
  destruct skip; [|apply IH].
  destruct (String.prefix sep (String c s)); [discriminate | apply IH].
Qed.

Lemma split_comma_concat (s : string) :
  forall cur,
    String.concat "," (split_from "," 0 cur s) = (cur ++ s)%string.
Proof.
  induction s as [|c s IH]; intros cur.
  - simpl. now rewrite append_nil_r.
  - cbn [split_from String.prefix String.length Nat.pred].
    destruct (Ascii.ascii_dec "," c) as [<-|Hc].
    + replace (String.prefix "" s) with true by now destruct s.
      destruct (split_from "," 0 "" s) as [|p ps] eqn:Hs;
        [now apply split_from_nonempty in Hs|].
      change (String.concat "," (cur :: p :: ps))
        with (cur ++ "," ++ String.concat "," (p :: ps))%string.
      rewrite <- Hs, IH. reflexivity.
    + rewrite IH, append_assoc. reflexivity.
Qed.

Lemma split_comma_noComma (s : string) :
  forall cur, noComma cur -> Forall noComma (split_from "," 0 cur s).
Proof.
  induction s as [|c s IH]; intros cur Hcur.
  - simpl. now constructor.
  - cbn [split_from String.prefix String.length Nat.pred].
    destruct (Ascii.ascii_dec "," c) as [<-|Hc].
    + replace (String.prefix "" s) with true by now destruct s.
      constructor; [assumption|]. apply IH. intros [].
    + apply IH. unfold noComma. rewrite list_ascii_of_string_app.
      intros Hin. apply in_app_or in Hin as [Hin|[Hin|[]]]; auto.
Qed.

Lemma strings_Split_comma (s : string) :
  strings_Split s "," <> [] /\
  String.concat "," (strings_Split s ",") = s /\
  Forall noComma (strings_Split s ",").
Proof.
  unfold strings_Split. repeat split.
  - apply split_from_nonempty.
  - apply split_comma_concat.
  - apply split_comma_noComma. intros [].
Qed.

(** X11. The folders the volume server is given are the pieces of -dir:
    there is at least one of them (and at least one max count), none
    contains a comma, and joined by commas they give -dir back
    (lines 73, 141). *)
Theorem folders_join_back (env : Env) (flags : Globals) (sched : list tid)
    (t : tid) (v : VolumeServerArgs) :
  In (t, ENewVolumeServer v) (runServer env flags sched) ->
  vs_folders v <> [] /\ vs_maxCounts v <> [] /\
  String.concat "," (vs_folders v) = volumeDataFolders flags /\
  Forall noComma (vs_folders v).
Proof.
  intros Hin. apply volume_call in Hin as (ns & Hacc & _ & ->).
  cbn [expectedVolume vs_folders vs_maxCounts frameOf fr_folders
       fr_maxCounts].
  destruct (strings_Split_comma (volumeDataFolders flags)) as (Hne & Hc & Hn).
  repeat split; try assumption.
  destruct Hacc as (_ & _ & Hlen & _). intros ->. cbn [List.length] in Hlen.
  apply Hne. now apply length_zero_iff_nil.
Qed.

Lemma peersOf_concat (g : Globals) :
  String.concat "," (peersOf g) = serverPeers g /\ Forall noComma (peersOf g).
Proof.
  unfold peersOf. destruct (serverPeers g =? "")%string eqn:Hp; simpl.
  - apply String.eqb_eq in Hp. rewrite Hp. auto.
  - destruct (strings_Split_comma (serverPeers g)) as (_ & Hc & Hn). auto.
Qed.

(** X12. The peers the raft server is given, joined by commas, give -peers
    back, and none contains a comma (lines 123-127); likewise, with
    [serverWhiteList] nil at start, the white list the master and the
    volume server are given and -whiteList (lines 95-97, 108, 142). *)
Theorem peers_and_whiteList_join_back (env : Env) (flags : Globals)
    (sched : list tid) :
  (forall t a,
      In (t, ENewRaftServer a) (runServer env flags sched) ->
      String.concat "," (rs_peers a) = serverPeers flags /\
      Forall noComma (rs_peers a)) /\
  (serverWhiteList flags = [] ->
   (forall t m,
       In (t, ENewMasterServer m) (runServer env flags sched) ->
       String.concat "," (ms_whiteList m) = serverWhiteListOption flags /\
       Forall noComma (ms_whiteList m)) /\
   (forall t v,
       In (t, ENewVolumeServer v) (runServer env flags sched) ->
       String.concat "," (vs_whiteList v) = serverWhiteListOption flags /\
       Forall noComma (vs_whiteList v))).
Proof.
  split.
  - intros t a Hin. apply raft_call in Hin as (ns & _ & _ & ->).
    cbn [expectedRaft rs_peers frameOf fr_globals].
    rewrite normalize_peersOf. apply peersOf_concat.
  - intros Hnil.
    assert (Hwl : String.concat "," (serverWhiteList (normalize env flags))
                  = serverWhiteListOption flags /\
                  Forall noComma (serverWhiteList (normalize env flags))).
    { rewrite normalize_serverWhiteList, Hnil.
      destruct (serverWhiteListOption flags =? "")%string eqn:Hp.
      - apply String.eqb_eq in Hp. rewrite Hp. simpl. auto.
      - destruct (strings_Split_comma (serverWhiteListOption flags))
          as (_ & Hc & Hn). auto. }
    split.
    + intros t m Hin. apply master_call in Hin as (ns & _ & _ & ->).
      exact Hwl.
    + intros t v Hin. apply volume_call in Hin as (ns & _ & _ & ->).
      exact Hwl.
Qed.

Lemma digit_range (c : ascii) (d : Z) : digit c = Some d -> 0 <= d <= 9.
Proof.
  unfold digit.
  destruct ((48 <=? Z.of_nat (nat_of_ascii c)) &&
            (Z.of_nat (nat_of_ascii c) <=? 57)) eqn:H; [|discriminate].
  intros [= <-]. apply andb_prop in H as [H1 H2].
  apply Z.leb_le in H1, H2. lia.
Qed.

Lemma parseDigits_nonneg (s : string) :
  forall acc u, 0 <= acc -> parseDigits acc s = Some u -> 0 <= u.
Proof.
  induction s as [|c s IH]; intros acc u Hacc H; cbn [parseDigits] in H.
  - now injection H as <-.
  - destruct (digit c) as [d|] eqn:Hd; [|discriminate].
    apply digit_range in Hd. eapply IH; [|exact H]. lia.
Qed.

Lemma strconv_Atoi_range (s : string) (n : Z) :
  strconv_Atoi s = Some n -> inIntRange n.
Proof.
  unfold strconv_Atoi, inIntRange, intSize.
  destruct s as [|c rest]; [discriminate|].
  change (64 - 1) with 63.
  destruct (Ascii.eqb c "+"); [|destruct (Ascii.eqb c "-")];
    cbv beta iota zeta.
  - destruct rest as [|c' rest']; [discriminate|].
    destruct (parseDigits 0 (String c' rest')) as [u|] eqn:Hu;
      [|discriminate].
    apply parseDigits_nonneg in Hu; [|lia].
    destruct (Z.ltb_spec u (2 ^ 63)); [|discriminate]. intros [= <-]. lia.
  - destruct rest as [|c' rest']; [discriminate|].
    destruct (parseDigits 0 (String c' rest')) as [u|] eqn:Hu;
      [|discriminate].
    apply parseDigits_nonneg in Hu; [|lia].
    destruct (Z.leb_spec u (2 ^ 63)); [|discriminate]. intros [= <-]. lia.
  - destruct (parseDigits 0 (String c rest)) as [u|] eqn:Hu;
      [|discriminate].
    apply parseDigits_nonneg in Hu; [|lia].
    destruct (Z.ltb_spec u (2 ^ 63)); [|discriminate]. intros [= <-]. lia.
Qed.

(** X13. Every max count the volume server is given fits Go's 64-bit [int]:
    [strconv.Atoi] fails on anything else, which ends the run at line 80. *)
Theorem maxCounts_in_int_range (env : Env) (flags : Globals)
    (sched : list tid) (t : tid) (v : VolumeServerArgs) :
  In (t, ENewVolumeServer v) (runServer env flags sched) ->
  Forall inIntRange (vs_maxCounts v).
Proof.
  intros Hin. apply volume_call in Hin as (ns & Hacc & _ & ->).
  cbn [expectedVolume vs_maxCounts frameOf fr_maxCounts].
  destruct Hacc as (_ & Hparse & _).
  induction Hparse as [|m n l l' Hmn _ IH]; constructor; [|assumption].
  eapply strconv_Atoi_range, Hmn.
Qed.

(** ** The checks of the prefix, in order *)
Lemma no_parse_no_accept (l : list string) (ns : list Z) (m : string) :
  Forall2 parses l ns -> In m l -> strconv_Atoi m = None -> False.
Proof.
  intros Hparse Hin Hbad.
  induction Hparse as [|x y l l' Hxy _ IH]; [contradiction|].
  destruct Hin as [->|Hin]; [unfold parses in Hxy; congruence | auto].
Qed.

(** X15. The configuration checks are made in the order of the source, and
    the first that fails decides the run, under every schedule: a meta data
    folder that is not writable is reported whatever -max and -dir are
    (lines 69-71); otherwise an entry of -max that is not a number is
    reported (lines 76-82); otherwise a number of folders different from
    the number of max counts (lines 83-85). The loop that tests the data
    folders is not reached in any of these runs. *)
Theorem config_error_precedence (env : Env) (flags : Globals) :
  (FolderWritable env (metaFolder flags) = false ->
   forall sched,
     runServer env flags sched =
     tag Main [EGOMAXPROCS (maxProcs env flags);
               ETestFolderWritable (metaFolder flags) false;
               EFatalf (MetaFolderNotWritable (metaFolder flags))]) /\
  (FolderWritable env (metaFolder flags) = true ->
   (exists m, In m (strings_Split (volumeMaxDataVolumeCounts flags) ",") /\
              strconv_Atoi m = None) ->
   exists m,
     In m (strings_Split (volumeMaxDataVolumeCounts flags) ",") /\
     strconv_Atoi m = None /\
     forall sched,
       runServer env flags sched =
       tag Main [EGOMAXPROCS (maxProcs env flags);
                 ETestFolderWritable (metaFolder flags) true;
                 EFatalf (MaxNotValidNumber m)]) /\
  (FolderWritable env (metaFolder flags) = true ->
   forall ns,
     Forall2 parses (strings_Split (volumeMaxDataVolumeCounts flags) ",") ns ->
     List.length (strings_Split (volumeDataFolders flags) ",")
       <> List.length ns ->
     forall sched,
       runServer env flags sched =
       tag Main [EGOMAXPROCS (maxProcs env flags);
                 ETestFolderWritable (metaFolder flags) true;
                 EFatalf (DirMaxMismatch
                            (List.length
                               (strings_Split (volumeDataFolders flags) ","))
                            (List.length ns))]).
Proof.
  unfold runServer.
  change {| globals := flags; events := [] |} with (start flags).
  split; [|split].
  - intros Hw sched.
    destruct (setup_spec env flags) as
      [w _ He | w m Hw' _ _ _ | w ns Hw' _ _ _
      | w ns l1 f l2 Hw' _ _ _ _ _ | w ns Hw' _ _ _ _ _]; try congruence.
    now rewrite He.
  - intros Hw (m & Hin & Hbad).
    destruct (setup_spec env flags) as
      [w Hw' _ | w m' _ Hin' Hbad' He | w ns _ Hns _ _
      | w ns l1 f l2 _ Hns _ _ _ _ | w ns _ Hns _ _ _ _].
    + congruence.
    + exists m'. repeat split; auto. intros _. now rewrite He.
    + destruct (no_parse_no_accept _ _ _ Hns Hin Hbad).
    + destruct (no_parse_no_accept _ _ _ Hns Hin Hbad).
    + destruct (no_parse_no_accept _ _ _ Hns Hin Hbad).
  - intros Hw ns Hns Hlen sched.
    destruct (setup_spec env flags) as
      [w Hw' _ | w m' _ Hin' Hbad' _ | w ns' _ Hns' _ He
      | w ns' l1 f l2 _ Hns' Hlen' _ _ _ | w ns' _ Hns' Hlen' _ _ _].
    + congruence.
    + destruct (no_parse_no_accept _ _ _ Hns Hin' Hbad').
    + rewrite He, (parses_unique _ _ _ Hns' Hns). reflexivity.
    + rewrite (parses_unique _ _ _ Hns' Hns) in Hlen'. contradiction.
    + rewrite (parses_unique _ _ _ Hns' Hns) in Hlen'. contradiction.
Qed.

Lemma parse_all (l : list string) :
  Forall (fun m => strconv_Atoi m <> None) l -> exists ns, Forall2 parses l ns.
Proof.
  induction 1 as [|m l Hm _ (ns & IH)]; [exists []; constructor|].
  destruct (strconv_Atoi m) as [n|] eqn:Hn; [|congruence].
  exists (n :: ns). now constructor.
Qed.

Lemma startMaster_trace (env : Env) (fr : Frame) :
  st_trace (run env startMaster (boot fr)) =
  tag Main (firstn 3 (mainScript env fr)) ++
  tag Master (firstn 2 (masterScript env fr)).
Proof.
  unfold startMaster. cbv [repeat app boot].
  repeat (rewrite run_cons; eval_step).
  reflexivity.
Qed.

(** X16. Some run constructs the master server exactly when the
    configuration passes the four checks of lines 66-90: the meta data
    folder is writable, every entry of -max is a number, there are as many
    entries as folders in -dir, and every folder is writable. *)
Theorem master_constructed_iff_accepted (env : Env) (flags : Globals) :
  (exists sched t m, In (t, ENewMasterServer m) (runServer env flags sched))
  <->
  FolderWritable env (metaFolder flags) = true /\
  Forall (fun m => strconv_Atoi m <> None)
         (strings_Split (volumeMaxDataVolumeCounts flags) ",") /\
  List.length (strings_Split (volumeDataFolders flags) ",") =
  List.length (strings_Split (volumeMaxDataVolumeCounts flags) ",") /\
  Forall (fun f => FolderWritable env f = true)
         (strings_Split (volumeDataFolders flags) ",").
Proof.
  split.
  - intros (sched & t & m & Hin).
    apply master_call in Hin as (ns & (Hw & Hparse & Hlen & Hall) & _).
    split; [assumption|]. split; [|split].
    + clear - Hparse. induction Hparse as [|x y l l' Hxy _ IH]; constructor;
        [unfold parses in Hxy; congruence | assumption].
    + rewrite Hlen. symmetry. eapply Forall2_length, Hparse.
    + apply Forall_forall. now apply forallb_forall.
  - intros (Hw & Hparse & Hlen & Hall).
    destruct (parse_all _ Hparse) as (ns & Hns).
    assert (Hacc : Accepted env flags ns).
    { split; [assumption|]. split; [assumption|]. split.
      - rewrite Hlen. eapply Forall2_length, Hns.
      - apply forallb_forall. now apply Forall_forall. }
    exists startMaster, Master, (expectedMaster env (frameOf env flags ns)).
    rewrite (runServer_accepted _ _ ns _ Hacc), startMaster_trace.
    apply in_or_app. right. apply in_or_app. right.
    unfold masterScript, tag. cbn [firstn map In]. auto.
Qed.

(** X17. Every [glog.Fatalf] of a run is one of: a configuration error, by
    main; the master's listener failing, or the master's [http.Serve]
    returning, by the master goroutine, named by ip:masterPort; the volume
    server's listener failing, or its [http.Serve] returning, by main,
    named by ip:port. The raft goroutine never calls [glog.Fatalf]. *)
Theorem fatal_reasons (env : Env) (flags : Globals) (sched : list tid)
    (t : tid) (why : Fatal) :
  In (t, EFatalf why) (runServer env flags sched) ->
  (t = Main /\ configError why) \/
  (t = Master /\
   ((why = ListenFailed (masterAddr flags) /\
     ListenOk env (masterAddr flags) = false) \/
    (why = ServeFailed (masterAddr flags) /\
     ServeReturns env (masterAddr flags) = true))) \/
  (t = Main /\
   ((why = ListenFailed (volumeAddr flags) /\
     ListenOk env (volumeAddr flags) = false) \/
    (why = ServeFailed (volumeAddr flags) /\
     ServeReturns env (volumeAddr flags) = true))).
Proof.
  intros Hin.
  apply runServer_calls in Hin
    as [(-> & [H|(why' & [= <-] & Hc)])|(ns & Hacc & Hin)].
  - contradiction.
  - left. auto.
  - right. pose proof (trace_justified _ _ _ _ _ Hin) as Hj.
    eapply trace_calls in Hin; [|apply reach_inv].
    destruct t; script_cases Hin; injection Hin as <-; cbn in Hj;
      cbn [frameOf fr_globals] in *;
      rewrite ?normalize_masterAddr, ?normalize_volumeAddr in *; auto 6.
Qed.

(** X18. Each server is constructed before its own listener is opened,
    whether or not opening succeeds: [NewMasterServer] before the master
    goroutine's [util.NewListener] (lines 107-115), [NewVolumeServer]
    before main's (lines 141-149). The raft goroutine opens no listener. *)
Theorem server_before_its_listener (env : Env) (flags : Globals)
    (sched : list tid) (t : tid) (addr : string) (timeout : Z) (ok : bool) :
  In (t, ENewListener addr timeout ok) (runServer env flags sched) ->
  (t = Master /\
   exists m, before (Master, ENewMasterServer m)
                    (t, ENewListener addr timeout ok)
                    (runServer env flags sched)) \/
  (t = Main /\
   exists v, before (Main, ENewVolumeServer v)
                    (t, ENewListener addr timeout ok)
                    (runServer env flags sched)).
Proof.
  intros Hin.
  apply concurrent_call in Hin as (ns & Hacc & Htr & _);
    [| simpl; tauto | discriminate].
  rewrite (runServer_accepted _ _ ns sched Hacc).
  pose proof (reach_inv env (frameOf env flags ns) sched) as Hs.
  apply In_proj in Htr. destruct t.
  - right. split; [reflexivity|].
    rewrite (inv_main _ _ _ Hs) in Htr.
    unfold histMain, mainScript, fatalTail in Htr.
    eexists. apply before_app_r, before_proj. rewrite (inv_main _ _ _ Hs).
    unfold histMain, mainScript, fatalTail.
    destruct (st_pcMain _); cbn [callsMain rankM firstn] in *;
      destruct (st_exited _) as [[]|]; cbn [app In] in *;
      repeat match type of Htr with
        | _ \/ _ => destruct Htr as [Htr|Htr]
        | False => contradiction
        end; try discriminate Htr; injection Htr as <- <- <-;
      repeat first [apply before_here; solve [find_in] | apply before_skip].
  - left. split; [reflexivity|].
    rewrite (inv_master _ _ _ Hs) in Htr.
    unfold histMaster, masterScript, fatalTail in Htr.
    eexists. apply before_app_r, before_proj. rewrite (inv_master _ _ _ Hs).
    unfold histMaster, masterScript, fatalTail.
    destruct (st_pcMaster _); cbn [callsMaster rankG Nat.pred firstn] in *;
      destruct (st_exited _) as [[]|]; cbn [app In] in *;
      repeat match type of Htr with
        | _ \/ _ => destruct Htr as [Htr|Htr]
        | False => contradiction
        end; try discriminate Htr; injection Htr as <- <- <-;
      repeat first [apply before_here; solve [find_in] | apply before_skip].
  - exfalso. rewrite (inv_raft _ _ _ Hs) in Htr.
    unfold histRaft, raftScript in Htr.
    destruct (st_pcRaft _); cbn [callsRaft firstn In] in Htr;
      repeat match type of Htr with
        | _ \/ _ => destruct Htr as [Htr|Htr]
        | False => contradiction
        end; discriminate Htr.
Qed.

(** ** The examples *)
Lemma deafEnv_accepted : Accepted deafEnv exampleFlags [7; 9].
Proof.
  unfold Accepted. split; [reflexivity|]. split.
  - repeat constructor.
  - split; reflexivity.
Defined.

Lemma publicFlags_accepted : Accepted exampleEnv publicFlags [7; 9].
Proof.
  unfold Accepted. split; [reflexivity|]. split.
  - repeat constructor.
  - split; reflexivity.
Defined.

Ltac in_serveLast Hacc :=
  rewrite (runServer_serveLast _ _ _ Hacc eq_refl);
  apply in_or_app; right;
  unfold mainScript, masterScript, raftScript, tag;
  cbn [map firstn skipn app]; find_in.

Lemma example_listens :
  In (Master, ENewListener "localhost:9333" (seconds 10) true)
     (runServer exampleEnv exampleFlags serveLast).
Proof. in_serveLast exampleFlags_accepted. Qed.

Lemma example_serves :
  In (Master, EServe "localhost:9333" MasterRouter)
     (runServer exampleEnv exampleFlags serveLast).
Proof. in_serveLast exampleFlags_accepted. Qed.

Lemma example_volume :
  In (Main, ENewVolumeServer
              (expectedVolume exampleEnv
                 (frameOf exampleEnv exampleFlags [7; 9])))
     (runServer exampleEnv exampleFlags serveLast).
Proof. in_serveLast exampleFlags_accepted. Qed.

Lemma example_raft :
  In (Raft, ENewRaftServer
              (expectedRaft exampleEnv
                 (frameOf exampleEnv exampleFlags [7; 9])))
     (runServer exampleEnv exampleFlags serveLast).
Proof. in_serveLast exampleFlags_accepted. Qed.

Lemma public_volume :
  In (Main, ENewVolumeServer
              (expectedVolume exampleEnv
                 (frameOf exampleEnv publicFlags [7; 9])))
     (runServer exampleEnv publicFlags serveLast).
Proof. in_serveLast publicFlags_accepted. Qed.

Lemma deaf_run :
  runServer deafEnv exampleFlags listenFails =
  removelast (runServer deafEnv exampleFlags listenFails) ++
  (Master, EFatalf (ListenFailed "localhost:9333")) :: [].
Proof. vm_compute. reflexivity. Qed.

Lemma healthy_never_exits_witness :
  ~ In (Main, EFatalf (ServeFailed "localhost:8080"))
       (runServer exampleEnv exampleFlags serveLast).
Proof.
  apply (healthy_never_exits exampleEnv exampleFlags [7; 9]);
    [exact exampleFlags_accepted | reflexivity..].
Defined.

Lemma master_listener_failure_witness :
  exists sched pre,
    runServer deafEnv exampleFlags sched =
    pre ++ [(Master, EFatalf (ListenFailed "localhost:9333"))].
Proof.
  exact (proj2 (master_listener_failure deafEnv exampleFlags [7; 9]
                  deafEnv_accepted eq_refl)).
Defined.

Lemma can_always_complete_witness :
  exists more v,
    In (Main, ENewVolumeServer v)
       (runServer exampleEnv exampleFlags ([Main; Master; Main] ++ more)).
Proof.
  apply (can_always_complete exampleEnv exampleFlags [7; 9]);
    [exact exampleFlags_accepted | reflexivity |].
  intros t why Hin. vm_compute in Hin.
  repeat (destruct Hin as [Hin|Hin]; [discriminate Hin|]). exact Hin.
Defined.

Lemma listeners_opened_witness :
  In (Master, ENewListener "localhost:9333" (seconds 10) true)
     (runServer exampleEnv exampleFlags serveLast) /\
  ListenOk exampleEnv "localhost:9333" = true.
Proof.
  split; [exact example_listens|].
  exact (proj1 (proj2 (listeners_opened exampleEnv exampleFlags serveLast
                         _ _ _ _ example_listens))).
Defined.

Lemma serve_after_listen_witness :
  exists timeout,
    before (Master, ENewListener "localhost:9333" timeout true)
           (Master, EServe "localhost:9333" MasterRouter)
           (runServer exampleEnv exampleFlags serveLast).
Proof.
  exact (proj2 (serve_after_listen exampleEnv exampleFlags serveLast
                  _ _ _ example_serves)).
Defined.

Lemma volume_points_at_master_witness :
  exists v,
    In (Main, ENewVolumeServer v)
       (runServer exampleEnv exampleFlags serveLast) /\
    vs_masterNode v = "localhost:9333"%string /\
    vs_port v = 8080.
Proof.
  eexists. split; [exact example_volume|].
  destruct (volume_points_at_master exampleEnv exampleFlags serveLast
              _ _ example_volume) as (H1 & _ & H2 & _).
  split; assumption.
Defined.

Lemma explicit_mdir_used_witness :
  exists rest,
    runServer exampleEnv exampleFlags serveLast =
    (Main, EGOMAXPROCS 2) :: (Main, ETestFolderWritable "/meta" true) :: rest.
Proof.
  assert (H : masterMetaFolder exampleFlags <> ""%string) by discriminate.
  exact (proj1 (explicit_mdir_used exampleEnv exampleFlags H) serveLast).
Defined.

Lemma explicit_publicUrl_used_witness :
  exists v,
    In (Main, ENewVolumeServer v)
       (runServer exampleEnv publicFlags serveLast) /\
    vs_publicUrl v = "files.example.com:80"%string.
Proof.
  eexists. split; [exact public_volume|].
  apply (explicit_publicUrl_used exampleEnv publicFlags serveLast Main);
    [discriminate | exact public_volume].
Defined.

Lemma folders_join_back_witness :
  exists v,
    In (Main, ENewVolumeServer v)
       (runServer exampleEnv exampleFlags serveLast) /\
    String.concat "," (vs_folders v) = "/data1,/data2"%string.
Proof.
  eexists. split; [exact example_volume|].
  exact (proj1 (proj2 (proj2 (folders_join_back exampleEnv exampleFlags
                                serveLast _ _ example_volume)))).
Defined.

Lemma peers_and_whiteList_join_back_witness :
  exists a v,
    In (Raft, ENewRaftServer a)
       (runServer exampleEnv exampleFlags serveLast) /\
    In (Main, ENewVolumeServer v)
       (runServer exampleEnv exampleFlags serveLast) /\
    String.concat "," (rs_peers a) = "m1:9333,m2:9333"%string /\
    String.concat "," (vs_whiteList v) = "10.0.0.1,10.0.0.2"%string.
Proof.
  eexists. eexists.
  split; [exact example_raft|]. split; [exact example_volume|].
  destruct (peers_and_whiteList_join_back exampleEnv exampleFlags serveLast)
    as [Hp Hw].
  split.
  - exact (proj1 (Hp _ _ example_raft)).
  - exact (proj1 (proj2 (Hw eq_refl) _ _ example_volume)).
Defined.

Lemma maxCounts_in_int_range_witness :
  exists v,
    In (Main, ENewVolumeServer v)
       (runServer exampleEnv exampleFlags serveLast) /\
    Forall inIntRange (vs_maxCounts v).
Proof.
  eexists. split; [exact example_volume|].
  exact (maxCounts_in_int_range exampleEnv exampleFlags serveLast
           _ _ example_volume).
Defined.

Lemma config_error_precedence_witness :
  runServer exampleEnv mismatchFlags serveLast =
  tag Main [EGOMAXPROCS 4; ETestFolderWritable "/meta" true;
            EFatalf (DirMaxMismatch 2 1)].
Proof.
  apply (proj2 (proj2 (config_error_precedence exampleEnv mismatchFlags))
           eq_refl [7]).
  - repeat constructor.
  - discriminate.
Defined.

Lemma fatal_reasons_witness :
  In (Master, EFatalf (ListenFailed "localhost:9333"))
     (runServer deafEnv exampleFlags listenFails) /\
  ListenOk deafEnv "localhost:9333" = false.
Proof.
  assert (Hin : In (Master, EFatalf (ListenFailed "localhost:9333"))
                   (runServer deafEnv exampleFlags listenFails)).
  { rewrite deaf_run. apply in_or_app. right. left. reflexivity. }
  split; [exact Hin|].
  destruct (fatal_reasons deafEnv exampleFlags listenFails _ _ Hin)
    as [[H _] | [[_ [[_ H] | [H _]]] | [H _]]];
    [discriminate H | exact H | discriminate H | discriminate H].
Defined.

Lemma server_before_its_listener_witness :
  exists m,
    before (Master, ENewMasterServer m)
           (Master, ENewListener "localhost:9333" (seconds 10) true)
           (runServer exampleEnv exampleFlags serveLast).
Proof.
  destruct (server_before_its_listener exampleEnv exampleFlags serveLast
              _ _ _ _ example_listens) as [[_ H] | [H _]];
    [exact H | discriminate H].
Defined.

(** ** The first data folder that is not writable *)
Lemma checkDataFolders_first (env : Env) (l1 : list string) (f : string)
    (l2 : list string) :
  forall w : World,
    forallb (FolderWritable env) l1 = true ->
    FolderWritable env f = false ->
    checkDataFolders env (l1 ++ f :: l2) w =
    Exit {| globals := globals w;
            events := events w ++ map (tested true) l1 ++
                      [tested false f; EFatalf (DataFolderNotWritable f)] |}.
Proof.
  induction l1 as [|x l1 IH]; intros [g0 ev] Hall Hf;
    cbn [app checkDataFolders map forallb] in *;
    cbv beta iota zeta delta [bind util_TestFolderWritable emit ret];
    cbn [globals events].
  - rewrite Hf. unfold glog_Fatalf. cbn [globals events].
    now rewrite <- app_assoc.
  - apply andb_prop in Hall as [Hx Hall]. rewrite Hx, IH by assumption.
    cbn [globals events]. now rewrite <- app_assoc.
Qed.

Lemma parseMaxCounts_parses (l : list string) (ns acc : list Z) (w : World) :
  Forall2 parses l ns -> parseMaxCounts l acc w = Continue (acc ++ ns) w.
Proof.
  intros Hns.
  destruct (parseMaxCounts_spec l acc w)
    as [(ns' & Hns' & ->)|(m & Hin & Hbad & _)].
  - now rewrite (parses_unique _ _ _ Hns' Hns).
  - destruct (no_parse_no_accept _ _ _ Hns Hin Hbad).
Qed.

(** X19. The data folders are tested one by one in the order of -dir, and
    the run ends at the first that is not writable (lines 86-90): when the
    checks before pass, the folders before it are tested writable, it is
    tested and named by [glog.Fatalf], and the folders after it are not
    tested at all, under every schedule. *)
Theorem first_unwritable_data_folder (env : Env) (flags : Globals)
    (ns : list Z) (l1 : list string) (f : string) (l2 : list string) :
  FolderWritable env (metaFolder flags) = true ->
  Forall2 parses (strings_Split (volumeMaxDataVolumeCounts flags) ",") ns ->
  List.length (strings_Split (volumeDataFolders flags) ",") = List.length ns ->
  strings_Split (volumeDataFolders flags) "," = l1 ++ f :: l2 ->
  forallb (FolderWritable env) l1 = true ->
  FolderWritable env f = false ->
  forall sched,
    runServer env flags sched =
    tag Main ([EGOMAXPROCS (maxProcs env flags);
               tested true (metaFolder flags)] ++
              map (tested true) l1 ++
              [tested false f; EFatalf (DataFolderNotWritable f)]).
Proof.
  intros Hw Hns Hlen Hsplit Hall Hf sched.
  unfold runServer, metaFolder, maxProcs in *.
  cbv beta iota zeta delta [setup bind load store emit when
    util_TestFolderWritable ret glog_Fatalf].
  cbn [globals events app].
  destruct (serverMaxCpu flags <? 1) eqn:Hcpu;
    cbn [globals events app set_serverMaxCpu masterMetaFolder
         volumeDataFolders serverMaxCpu] in *.
  all: destruct (masterMetaFolder flags =? "")%string eqn:Hmd;
    cbn [globals events app set_masterMetaFolder masterMetaFolder
         volumeDataFolders set_serverMaxCpu] in *.
  all: rewrite Hw; cbn [negb globals events app].
  all: cbn [volumeMaxDataVolumeCounts volumeDataFolders
            set_masterMetaFolder set_serverMaxCpu].
  all: rewrite (parseMaxCounts_parses _ ns) by assumption.
  all: cbn [app globals events]; rewrite Hlen, Nat.eqb_refl;
    cbn [negb globals events app].
  all: rewrite Hsplit, checkDataFolders_first by assumption.
  all: reflexivity.
Qed.

Lemma first_unwritable_data_folder_witness :
  runServer exampleEnv unwritableFlags serveLast =
  tag Main [EGOMAXPROCS 4; tested true "/meta"; tested true "/data1";
            tested false "/nope"; EFatalf (DataFolderNotWritable "/nope")].
Proof.
  apply (first_unwritable_data_folder exampleEnv unwritableFlags
           [7; 8; 9] ["/data1"] "/nope" ["/data2"]);
    try reflexivity.
  repeat constructor.
Defined.
